(** * sk-sb-quiz: the quiz page of [src/routes/+page.svelte]

    A shallow embedding of the script block of the quiz page (the version
    with re-queueing and the auto-advance timer, and the earlier version
    without them), followed by the properties of the option builder, the
    shuffle and the session controller. *)

From stdpp Require Import gmap strings list sorting.
From Stdlib Require Import ZArith Lia.

Local Open Scope string_scope.
Local Open Scope list_scope.
Local Open Scope nat_scope.

(** ** Values *)

(** An entry of a [dummyAnswers] array as the JSON file delivers it.  The
    code only ever inspects it through [typeof t === "string"]. *)
Inductive jsval : Type :=
  | JString (s : string)
  | JNotString.

(** [type Question].  [correctAnswer] is a string as declared;
    [dummyAnswers] and [__index] are the two optional members. *)
Record Question : Type := mkQuestion {
  domain : string;
  lesson : string;
  question : string;
  correctAnswer : string;
  dummyAnswers : option (list jsval);
  __index : option nat
}.

(** [type Option]. *)
Record Option : Type := mkOption {
  text : string;
  correct : bool
}.

#[global] Instance jsval_eq_dec : EqDecision jsval.
Proof. solve_decision. Defined.
#[global] Instance Option_eq_dec : EqDecision Option.
Proof. solve_decision. Defined.

(** The option is the one marked correct. *)
Definition is_correct (o : Option) : Prop := correct o = true.

#[global] Instance is_correct_dec o : Decision (is_correct o).
Proof. unfold is_correct. apply _. Defined.

(** ** The random source

    [Math.random()] is an input of the program.  It is modelled by the
    stream of the naturals it will deliver; [Math.floor(Math.random() * n)]
    is the next natural reduced modulo [n], which is an arbitrary index
    below [n]. *)
Definition random := nat → nat.

Definition random_floor (g : random) (n : nat) : nat := g 0 `mod` n.
Definition random_next (g : random) : random := λ k, g (S k).

(** ** shuffleArray *)

(** [[a[i], a[j]] = [a[j], a[i]]]: both reads happen first, then [a[i]] is
    written, then [a[j]].  Reads outside the array do not occur in the
    loop below (see [shuffle_indices_in_range]); the model leaves the array
    alone there. *)
Definition swap {A} (a : list A) (i j : nat) : list A :=
  match a !! i, a !! j with
  | Some ai, Some aj => <[j := ai]> (<[i := aj]> a)
  | _, _ => a
  end.

(** The body of [for (let i = a.length - 1; i > 0; i--)], by recursion on
    the loop variable. *)
Fixpoint shuffle_loop {A} (i : nat) (g : random) (a : list A) : list A * random :=
  match i with
  | 0 => (a, g)
  | S i' =>
      let j := random_floor g (i + 1) in
      shuffle_loop i' (random_next g) (swap a i j)
  end.

Definition shuffleArray {A} (g : random) (arr : list A) : list A * random :=
  shuffle_loop (length arr - 1) g arr.

(** ** The option builder *)

(** [allQuestions.forEach((q, idx) => ...)] of [getGlobalDistractorPool],
    from position [idx] on.  The source also skips a record that is missing
    or whose [correctAnswer] is not a string; [Question] gives every record
    a string there, as the declared type does, so that guard has no case
    here, and nothing below speaks about stores that break the type. *)
Fixpoint distractors_from (idx : nat) (qs : list Question) (excludeIndex : nat)
  : list string :=
  match qs with
  | [] => []
  | q :: qs' =>
      if decide (idx = excludeIndex) then distractors_from (S idx) qs' excludeIndex
      else correctAnswer q :: distractors_from (S idx) qs' excludeIndex
  end.

Definition getGlobalDistractorPool (allQuestions : list Question)
    (excludeIndex : option nat) : list string :=
  match excludeIndex with
  | None => []
  | Some e => distractors_from 0 allQuestions e
  end.

(** [data.map((q, idx) => ({ ...q, __index: idx }))] of [onMount], from
    position [idx] on. *)
Fixpoint attachIndices (idx : nat) (data : list Question) : list Question :=
  match data with
  | [] => []
  | q :: data' =>
      mkQuestion (domain q) (lesson q) (question q) (correctAnswer q)
        (dummyAnswers q) (Some idx) :: attachIndices (S idx) data'
  end.

(** The callback of [perQ.forEach]: the options built so far and [seen]. *)
Definition push_dummy (acc : list Option * gset string) (t : jsval)
  : list Option * gset string :=
  match t with
  | JString s =>
      if decide (s ∈ acc.2) then acc
      else (acc.1 ++ [mkOption s false], {[s]} ∪ acc.2)
  | JNotString => acc
  end.

(** The body of the top-up loop: it pushes [pool[i]] and adds it to [seen],
    without looking [seen] up. *)
Definition push_distractor (acc : list Option * gset string) (t : string)
  : list Option * gset string :=
  (acc.1 ++ [mkOption t false], {[t]} ∪ acc.2).

Definition desiredOptionCount : Z := 4.

(** The option list of [buildOptionsForQuestion] before the final shuffle,
    and the random source left for that shuffle.  The loop
    [for (let i = 0; i < needed && i < pool.length; i++)] visits the first
    [needed] entries of [pool]. *)
Definition optionsBeforeShuffle (allQuestions : list Question) (g : random)
    (q : Question) : list Option * random :=
  let correctText := correctAnswer q in
  let acc0 : list Option * gset string :=
    ([mkOption correctText true], {[correctText]}) in
  let perQ := default [] (dummyAnswers q) in
  let acc1 := foldl push_dummy acc0 perQ in
  let needed := Z.max 0 (desiredOptionCount - Z.of_nat (length acc1.1)) in
  if (0 <? needed)%Z then
    let pool :=
      shuffleArray g
        (filter (λ t, t ∉ acc1.2)
           (getGlobalDistractorPool allQuestions (__index q))) in
    let acc2 := foldl push_distractor acc1 (take (Z.to_nat needed) pool.1) in
    (acc2.1, pool.2)
  else (acc1.1, g).

Definition buildOptionsForQuestion (allQuestions : list Question) (g : random)
    (q : Question) : list Option * random :=
  let pre := optionsBeforeShuffle allQuestions g q in
  shuffleArray pre.2 pre.1.

(** ** The page state *)

Inductive Status : Type := Idle | Correct | Incorrect.

#[global] Instance Status_eq_dec : EqDecision Status.
Proof. solve_decision. Defined.

(** An element of [sessionQuestions]: a reference to one of the objects of
    [allQuestions], named by its position there, or [undefined] (what
    reading past the end of an array yields). *)
Inductive qref : Type :=
  | Ref (addr : nat)
  | Undefined.

#[global] Instance qref_eq_dec : EqDecision qref.
Proof. solve_decision. Defined.

(** A pending [setTimeout]: its id and the time it is due.  The only
    callback the page ever registers is [() => nextQuestion(true)]. *)
Definition timer : Type := nat * nat.

(** The top-level [let] variables of the script, followed by the part of
    the browser the script talks to: the table of pending timeouts, the
    next timeout id and the clock (in milliseconds).  [minQuestions] is the
    number bound to the input field, whose [min] and [max] attributes do
    not constrain what is typed; integer values are modelled. *)
Record state : Type := mkState {
  loading : bool;
  error : option string;
  allQuestions : list Question;
  domains : list string;
  selectedDomains : gset string;
  minQuestions : Z;
  sessionQuestions : list qref;
  sessionStarted : bool;
  currentIndex : nat;
  currentOptions : list Option;
  status : Status;
  statusMessage : string;
  autoAdvanceTimeout : option nat;
  timers : list timer;
  nextTimerId : nat;
  now : nat
}.

(** Assignment to one variable. *)
Definition set_error (v : option string) (s : state) : state :=
  {| loading := loading s; error := v; allQuestions := allQuestions s;
     domains := domains s; selectedDomains := selectedDomains s;
     minQuestions := minQuestions s; sessionQuestions := sessionQuestions s;
     sessionStarted := sessionStarted s; currentIndex := currentIndex s;
     currentOptions := currentOptions s; status := status s;
     statusMessage := statusMessage s;
     autoAdvanceTimeout := autoAdvanceTimeout s; timers := timers s;
     nextTimerId := nextTimerId s; now := now s |}.

Definition set_selectedDomains (v : gset string) (s : state) : state :=
  {| loading := loading s; error := error s; allQuestions := allQuestions s;
     domains := domains s; selectedDomains := v;
     minQuestions := minQuestions s; sessionQuestions := sessionQuestions s;
     sessionStarted := sessionStarted s; currentIndex := currentIndex s;
     currentOptions := currentOptions s; status := status s;
     statusMessage := statusMessage s;
     autoAdvanceTimeout := autoAdvanceTimeout s; timers := timers s;
     nextTimerId := nextTimerId s; now := now s |}.

Definition set_minQuestions (v : Z) (s : state) : state :=
  {| loading := loading s; error := error s; allQuestions := allQuestions s;
     domains := domains s; selectedDomains := selectedDomains s;
     minQuestions := v; sessionQuestions := sessionQuestions s;
     sessionStarted := sessionStarted s; currentIndex := currentIndex s;
     currentOptions := currentOptions s; status := status s;
     statusMessage := statusMessage s;
     autoAdvanceTimeout := autoAdvanceTimeout s; timers := timers s;
     nextTimerId := nextTimerId s; now := now s |}.

Definition set_sessionQuestions (v : list qref) (s : state) : state :=
  {| loading := loading s; error := error s; allQuestions := allQuestions s;
     domains := domains s; selectedDomains := selectedDomains s;
     minQuestions := minQuestions s; sessionQuestions := v;
     sessionStarted := sessionStarted s; currentIndex := currentIndex s;
     currentOptions := currentOptions s; status := status s;
     statusMessage := statusMessage s;
     autoAdvanceTimeout := autoAdvanceTimeout s; timers := timers s;
     nextTimerId := nextTimerId s; now := now s |}.

Definition set_sessionStarted (v : bool) (s : state) : state :=
  {| loading := loading s; error := error s; allQuestions := allQuestions s;
     domains := domains s; selectedDomains := selectedDomains s;
     minQuestions := minQuestions s; sessionQuestions := sessionQuestions s;
     sessionStarted := v; currentIndex := currentIndex s;
     currentOptions := currentOptions s; status := status s;
     statusMessage := statusMessage s;
     autoAdvanceTimeout := autoAdvanceTimeout s; timers := timers s;
     nextTimerId := nextTimerId s; now := now s |}.

Definition set_currentIndex (v : nat) (s : state) : state :=
  {| loading := loading s; error := error s; allQuestions := allQuestions s;
     domains := domains s; selectedDomains := selectedDomains s;
     minQuestions := minQuestions s; sessionQuestions := sessionQuestions s;
     sessionStarted := sessionStarted s; currentIndex := v;
     currentOptions := currentOptions s; status := status s;
     statusMessage := statusMessage s;
     autoAdvanceTimeout := autoAdvanceTimeout s; timers := timers s;
     nextTimerId := nextTimerId s; now := now s |}.

Definition set_currentOptions (v : list Option) (s : state) : state :=
  {| loading := loading s; error := error s; allQuestions := allQuestions s;
     domains := domains s; selectedDomains := selectedDomains s;
     minQuestions := minQuestions s; sessionQuestions := sessionQuestions s;
     sessionStarted := sessionStarted s; currentIndex := currentIndex s;
     currentOptions := v; status := status s;
     statusMessage := statusMessage s;
     autoAdvanceTimeout := autoAdvanceTimeout s; timers := timers s;
     nextTimerId := nextTimerId s; now := now s |}.

Definition set_status (v : Status) (s : state) : state :=
  {| loading := loading s; error := error s; allQuestions := allQuestions s;
     domains := domains s; selectedDomains := selectedDomains s;
     minQuestions := minQuestions s; sessionQuestions := sessionQuestions s;
     sessionStarted := sessionStarted s; currentIndex := currentIndex s;
     currentOptions := currentOptions s; status := v;
     statusMessage := statusMessage s;
     autoAdvanceTimeout := autoAdvanceTimeout s; timers := timers s;
     nextTimerId := nextTimerId s; now := now s |}.

Definition set_statusMessage (v : string) (s : state) : state :=
  {| loading := loading s; error := error s; allQuestions := allQuestions s;
     domains := domains s; selectedDomains := selectedDomains s;
     minQuestions := minQuestions s; sessionQuestions := sessionQuestions s;
     sessionStarted := sessionStarted s; currentIndex := currentIndex s;
     currentOptions := currentOptions s; status := status s;
     statusMessage := v; autoAdvanceTimeout := autoAdvanceTimeout s;
     timers := timers s; nextTimerId := nextTimerId s; now := now s |}.

Definition set_autoAdvanceTimeout (v : option nat) (s : state) : state :=
  {| loading := loading s; error := error s; allQuestions := allQuestions s;
     domains := domains s; selectedDomains := selectedDomains s;
     minQuestions := minQuestions s; sessionQuestions := sessionQuestions s;
     sessionStarted := sessionStarted s; currentIndex := currentIndex s;
     currentOptions := currentOptions s; status := status s;
     statusMessage := statusMessage s; autoAdvanceTimeout := v;
     timers := timers s; nextTimerId := nextTimerId s; now := now s |}.

Definition set_timers (v : list timer) (s : state) : state :=
  {| loading := loading s; error := error s; allQuestions := allQuestions s;
     domains := domains s; selectedDomains := selectedDomains s;
     minQuestions := minQuestions s; sessionQuestions := sessionQuestions s;
     sessionStarted := sessionStarted s; currentIndex := currentIndex s;
     currentOptions := currentOptions s; status := status s;
     statusMessage := statusMessage s;
     autoAdvanceTimeout := autoAdvanceTimeout s; timers := v;
     nextTimerId := nextTimerId s; now := now s |}.

Definition set_nextTimerId (v : nat) (s : state) : state :=
  {| loading := loading s; error := error s; allQuestions := allQuestions s;
     domains := domains s; selectedDomains := selectedDomains s;
     minQuestions := minQuestions s; sessionQuestions := sessionQuestions s;
     sessionStarted := sessionStarted s; currentIndex := currentIndex s;
     currentOptions := currentOptions s; status := status s;
     statusMessage := statusMessage s;
     autoAdvanceTimeout := autoAdvanceTimeout s; timers := timers s;
     nextTimerId := v; now := now s |}.

Definition set_now (v : nat) (s : state) : state :=
  {| loading := loading s; error := error s; allQuestions := allQuestions s;
     domains := domains s; selectedDomains := selectedDomains s;
     minQuestions := minQuestions s; sessionQuestions := sessionQuestions s;
     sessionStarted := sessionStarted s; currentIndex := currentIndex s;
     currentOptions := currentOptions s; status := status s;
     statusMessage := statusMessage s;
     autoAdvanceTimeout := autoAdvanceTimeout s; timers := timers s;
     nextTimerId := nextTimerId s; now := v |}.

(** The outcome of a function of the script: it returns, or a [TypeError]
    escapes from it; either way the assignments made so far stay. *)
Inductive completion : Type :=
  | Normal (s : state)
  | Throw (s : state).

Definition state_of (c : completion) : state :=
  match c with Normal s | Throw s => s end.

Definition returns (c : completion) : bool :=
  match c with Normal _ => true | Throw _ => false end.

(** ** Helpers of the script *)

(** [sessionQuestions[i]]. *)
Definition queue_at (s : state) (i : nat) : qref :=
  default Undefined (sessionQuestions s !! i).

(** Following a reference into [allQuestions]; [undefined] has no members. *)
Definition deref (qs : list Question) (r : qref) : option Question :=
  match r with
  | Ref a => qs !! a
  | Undefined => None
  end.

(** [q.domain || "General"]. *)
Definition domain_or_general (q : Question) : string :=
  if decide (domain q = "") then "General" else domain q.

(** [allQuestions.filter((q) => activeDomains.includes(...))], from position
    [idx] on: the result holds the very objects of [allQuestions]. *)
Fixpoint candidates_from (idx : nat) (qs : list Question)
    (activeDomains : list string) : list qref :=
  match qs with
  | [] => []
  | q :: qs' =>
      if decide (domain_or_general q ∈ activeDomains)
      then Ref idx :: candidates_from (S idx) qs' activeDomains
      else candidates_from (S idx) qs' activeDomains
  end.

(** [a.slice(0, e)] for an integer [e]: a negative [e] counts from the end. *)
Definition slice0 {A} (a : list A) (e : Z) : list A :=
  let len := Z.of_nat (length a) in
  let final := if (e <? 0)%Z then Z.max (len + e) 0 else Z.min e len in
  take (Z.to_nat final) a.

Definition toggleDomain (d : string) (s : state) : state :=
  if decide (d ∈ selectedDomains s)
  then set_selectedDomains (selectedDomains s ∖ {[d]}) s
  else set_selectedDomains ({[d]} ∪ selectedDomains s) s.

(** [clearTimeout(id)]: harmless when [id] is not pending. *)
Definition clearTimeout (id : nat) (tbl : list timer) : list timer :=
  filter (λ t, t.1 ≠ id) tbl.

Definition clearAutoAdvanceTimer (s : state) : state :=
  match autoAdvanceTimeout s with
  | Some id => set_autoAdvanceTimeout None (set_timers (clearTimeout id (timers s)) s)
  | None => s
  end.

Definition autoAdvanceDelay : nat := 1000.

Definition scheduleAutoAdvance (s : state) : state :=
  let s1 := clearAutoAdvanceTimer s in
  let id := nextTimerId s1 in
  set_autoAdvanceTimeout (Some id)
    (set_nextTimerId (S id)
       (set_timers (timers s1 ++ [(id, now s1 + autoAdvanceDelay)]) s1)).

(** [buildOptionsForQuestion(q)] reads [q.correctAnswer] first, which throws
    when [q] is [undefined]. *)
Definition prepareCurrentQuestion (g : random) (s : state) : completion :=
  match deref (allQuestions s) (queue_at s (currentIndex s)) with
  | Some q =>
      Normal
        (set_statusMessage ""
           (set_status Idle
              (set_currentOptions
                 (buildOptionsForQuestion (allQuestions s) g q).1 s)))
  | None => Throw s
  end.

(** ** The session controller *)

Definition noCandidatesMessage : string :=
  "No questions found for the selected domains.".

Definition startSession (g : random) (s : state) : completion :=
  if decide (length (allQuestions s) = 0) then Normal s
  else
    let s1 := clearAutoAdvanceTimer s in
    let selected := elements (selectedDomains s1) in
    let activeDomains :=
      if decide (length selected = 0) then domains s1 else selected in
    let s2 :=
      if decide (length selected = 0)
      then set_selectedDomains (list_to_set (domains s1)) s1 else s1 in
    let candidates := candidates_from 0 (allQuestions s2) activeDomains in
    if decide (length candidates = 0)
    then Normal (set_error (Some noCandidatesMessage) s2)
    else
      let shuffled := shuffleArray g candidates in
      let candidates' :=
        if (minQuestions s2 <? Z.of_nat (length shuffled.1))%Z
        then slice0 shuffled.1 (minQuestions s2) else shuffled.1 in
      prepareCurrentQuestion shuffled.2
        (set_sessionStarted true
           (set_currentIndex 0 (set_sessionQuestions candidates' s2))).

Definition handleAnswerClick (option : Option) (s : state) : state :=
  if decide (status s ≠ Idle) then s
  else
    let s1 := clearAutoAdvanceTimer s in
    if correct option then
      scheduleAutoAdvance (set_statusMessage "Correct!" (set_status Correct s1))
    else
      let s2 := set_statusMessage "Incorrect." (set_status Incorrect s1) in
      let currentQuestionRef := queue_at s2 (currentIndex s2) in
      let remaining := drop (currentIndex s2 + 1) (sessionQuestions s2) in
      let alreadyQueued := bool_decide (currentQuestionRef ∈ remaining) in
      if alreadyQueued then s2
      else set_sessionQuestions (sessionQuestions s2 ++ [currentQuestionRef]) s2.

Definition nextQuestion (g : random) (s : state) : completion :=
  if negb (sessionStarted s) then Normal s
  else
    let s1 := clearAutoAdvanceTimer s in
    if (Z.of_nat (currentIndex s1) <? Z.of_nat (length (sessionQuestions s1)) - 1)%Z
    then prepareCurrentQuestion g (set_currentIndex (currentIndex s1 + 1) s1)
    else Normal (set_sessionStarted false (set_statusMessage "" (set_status Idle s1))).

(** ** The earlier version of the page

    [src/routes/+page.svelte] has the same helpers and the same option
    builder, no timer, and no re-queueing in [handleAnswerClick]. *)
Module Earlier.

Definition startSession (g : random) (s : state) : completion :=
  if decide (length (allQuestions s) = 0) then Normal s
  else
    let selected := elements (selectedDomains s) in
    let activeDomains :=
      if decide (length selected = 0) then domains s else selected in
    let s2 :=
      if decide (length selected = 0)
      then set_selectedDomains (list_to_set (domains s)) s else s in
    let candidates := candidates_from 0 (allQuestions s2) activeDomains in
    if decide (length candidates = 0)
    then Normal (set_error (Some noCandidatesMessage) s2)
    else
      let shuffled := shuffleArray g candidates in
      let candidates' :=
        if (minQuestions s2 <? Z.of_nat (length shuffled.1))%Z
        then slice0 shuffled.1 (minQuestions s2) else shuffled.1 in
      prepareCurrentQuestion shuffled.2
        (set_sessionStarted true
           (set_currentIndex 0 (set_sessionQuestions candidates' s2))).

Definition handleAnswerClick (option : Option) (s : state) : state :=
  if decide (status s ≠ Idle) then s
  else if correct option
  then set_statusMessage "Correct!" (set_status Correct s)
  else set_statusMessage "Incorrect." (set_status Incorrect s).

Definition nextQuestion (g : random) (s : state) : completion :=
  if negb (sessionStarted s) then Normal s
  else if (Z.of_nat (currentIndex s) <? Z.of_nat (length (sessionQuestions s)) - 1)%Z
  then prepareCurrentQuestion g (set_currentIndex (currentIndex s + 1) s)
  else Normal (set_sessionStarted false (set_statusMessage "" (set_status Idle s))).

End Earlier.

(** ** The page as a transition system *)

(** What can happen to the page once it is mounted: the handlers bound in
    the markup, the timeout callback, and the passing of time.  A handler
    that shuffles carries the random numbers it will be given. *)
Inductive event : Type :=
  | DomainToggle (d : string)
  | MinQuestionsInput (n : Z)
  | StartClick (g : random)
  | AnswerClick (option : Option)
  | NextClick (g : random)
  | TimerFire (id : nat) (g : random)
  | TimePasses (dt : nat).

(** The timeout [id] is pending and due. *)
Definition due (id : nat) (s : state) : bool :=
  bool_decide (Exists (λ t : timer, t.1 = id ∧ t.2 ≤ now s) (timers s)).

(** The browser runs a due timeout: it leaves the table, then its callback
    [nextQuestion(true)] runs. *)
Definition fireTimer (id : nat) (g : random) (s : state) : option completion :=
  if due id s
  then Some (nextQuestion g (set_timers (clearTimeout id (timers s)) s))
  else None.

(** [None]: the event cannot happen in [s]. *)
Definition handle (e : event) (s : state) : option completion :=
  match e with
  | DomainToggle d => Some (Normal (toggleDomain d s))
  | MinQuestionsInput n => Some (Normal (set_minQuestions n s))
  | StartClick g => Some (startSession g s)
  | AnswerClick o => Some (Normal (handleAnswerClick o s))
  | NextClick g => Some (nextQuestion g s)
  | TimerFire id g => fireTimer id g s
  | TimePasses dt => Some (Normal (set_now (now s + dt) s))
  end.

(** The script's variables as declared, once [onMount] is over; the store
    and the domain list are whatever was loaded. *)
Definition mounted (s : state) : Prop :=
  loading s = false ∧ sessionQuestions s = [] ∧ sessionStarted s = false ∧
  currentIndex s = 0 ∧ currentOptions s = [] ∧ status s = Idle ∧
  statusMessage s = "" ∧ autoAdvanceTimeout s = None ∧ timers s = [].

(** The states the page goes through.  After an escaped [TypeError] the
    page lives on with the assignments made before it. *)
Inductive reachable : state → Prop :=
  | reachable_mounted s : mounted s → reachable s
  | reachable_handle s e c :
      reachable s → handle e s = Some c → reachable (state_of c).

(** ** The markup *)

(** The three branches of the top-level [{#if loading} ... {:else if error}
    ... {:else}] block; in the last one the question card is there when
    [sessionStarted && currentQuestion] holds. *)
Inductive view : Type :=
  | LoadingView
  | ErrorView (msg : string)
  | QuizView (card : bool).

Definition cardShown (s : state) : bool :=
  sessionStarted s &&
  bool_decide (is_Some (deref (allQuestions s) (queue_at s (currentIndex s)))).

(** An empty message is falsy, like [null]. *)
Definition render (s : state) : view :=
  if loading s then LoadingView
  else
    match error s with
    | Some msg => if decide (msg = "") then QuizView (cardShown s) else ErrorView msg
    | None => QuizView (cardShown s)
    end.

(** The controls a view offers: the domain boxes, the number input and the
    start button belong to the setup card; the answer buttons (disabled
    unless [status] is idle) and the next button to the question card. *)
Definition offers (s : state) (e : event) : bool :=
  match render s, e with
  | QuizView _, (DomainToggle _ | MinQuestionsInput _ | StartClick _) => true
  | QuizView true, AnswerClick o =>
      bool_decide (status s = Idle) && bool_decide (o ∈ currentOptions s)
  | QuizView true, NextClick _ => true
  | _, _ => false
  end.

(** ** Invariants of a session *)

(** [0 <= position < queue.length] while a session is active. *)
Definition position_in_range (s : state) : Prop :=
  sessionStarted s = true → currentIndex s < length (sessionQuestions s).

(** Every entry of the queue is one of the objects of the store. *)
Definition queue_in_store (s : state) : Prop :=
  Forall (λ r, ∃ a, r = Ref a ∧ a < length (allQuestions s)) (sessionQuestions s).

(** At most one timeout is pending, and it is the one in the slot. *)
Definition single_timer (s : state) : Prop :=
  timers s = [] ∨
  ∃ id t, timers s = [(id, t)] ∧ autoAdvanceTimeout s = Some id ∧ id < nextTimerId s.

(** ** The option count in the words of the specification *)

(** The strings among [q.dummyAnswers]. *)
Definition dummyTexts (q : Question) : gset string :=
  list_to_set
    (omap (λ t, match t with JString s => Some s | JNotString => None end)
       (default [] (dummyAnswers q))).

(** The unique dummy answers that differ from the correct answer. *)
Definition uniqueDummies (q : Question) : gset string :=
  dummyTexts q ∖ {[correctAnswer q]}.

(** The unique correct answers of the other questions that are neither the
    correct answer nor a dummy answer of [q]. *)
Definition availableDistractors (allQuestions : list Question) (q : Question)
  : gset string :=
  list_to_set (getGlobalDistractorPool allQuestions (__index q))
    ∖ ({[correctAnswer q]} ∪ dummyTexts q).

(** [min(4, 1 + unique dummies + available unique distractors)]. *)
Definition specOptionCount (allQuestions : list Question) (q : Question) : nat :=
  4 `min` (1 + size (uniqueDummies q) + size (availableDistractors allQuestions q)).

(** The entries strictly after the cursor hold no reference twice. *)
Definition pending_distinct (s : state) : Prop :=
  NoDup (drop (currentIndex s + 1) (sessionQuestions s)).

(** A timeout is pending only while a correctly answered question waits
    for its advance. *)
Definition timer_means_correct (s : state) : Prop :=
  timers s ≠ [] → status s = Correct.

(** The domains [startSession] filters by, and the candidates it finds. *)
Definition activeDomainsOf (s : state) : list string :=
  if decide (length (elements (selectedDomains s)) = 0)
  then domains s else elements (selectedDomains s).

Definition matchingCandidates (s : state) : list qref :=
  candidates_from 0 (allQuestions s) (activeDomainsOf s).

(** The fields of the session proper: everything but the status, its
    message and the timer. *)
Definition same_session (s s' : state) : Prop :=
  loading s' = loading s ∧ error s' = error s ∧
  allQuestions s' = allQuestions s ∧ domains s' = domains s ∧
  selectedDomains s' = selectedDomains s ∧ minQuestions s' = minQuestions s ∧
  sessionQuestions s' = sessionQuestions s ∧
  sessionStarted s' = sessionStarted s ∧ currentIndex s' = currentIndex s ∧
  currentOptions s' = currentOptions s ∧ now s' = now s.

(** A session is in progress on a well-formed queue. *)
Definition active (s : state) : Prop :=
  sessionStarted s = true ∧
  currentIndex s < length (sessionQuestions s) ∧
  queue_in_store s.

(** No session is running, or one is in progress on a well-formed queue. *)
Definition settled (s : state) : Prop :=
  sessionStarted s = false ∨ active s.

(** The three invariants every reachable state satisfies. *)
Definition page_invariant (s : state) : Prop :=
  pending_distinct s ∧ single_timer s ∧ timer_means_correct s.

(** ** Sample data *)

Module Sample.

Definition ask (d a : string) (dummies : option (list jsval)) (i : nat) : Question :=
  mkQuestion d "" "?" a dummies (Some i).

(** Three questions with distinct answers and no dummy answers. *)
Definition store3 : list Question :=
  [ask "Net" "A" None 0; ask "Sql" "B" None 1; ask "" "C" None 2].

(** Two of the other questions share their correct answer. *)
Definition storeDup : list Question :=
  [ask "Net" "A" None 0; ask "Sql" "B" None 1; ask "Sql" "B" None 2].

(** A question with four dummy answers. *)
Definition fourDummies : Question :=
  ask "Net" "A" (Some [JString "B"; JString "C"; JString "D"; JString "E"]) 0.

(** A question whose dummy answers repeat the correct answer and each
    other, in a store of two. *)
Definition repeating : Question :=
  ask "Net" "A" (Some [JString "A"; JString "B"; JNotString; JString "B"]) 0.

Definition zeros : random := λ _, 0.
Definition counting : random := λ k, k + 1.

(** The page just after [onMount], for a loaded store. *)
Definition fresh (qs : list Question) (ds : list string) : state :=
  {| loading := false; error := None; allQuestions := qs; domains := ds;
     selectedDomains := list_to_set ds; minQuestions := 10;
     sessionQuestions := []; sessionStarted := false; currentIndex := 0;
     currentOptions := []; status := Idle; statusMessage := "";
     autoAdvanceTimeout := None; timers := []; nextTimerId := 0; now := 0 |}.

Definition page3 : state := fresh store3 ["General"; "Net"; "Sql"].

(** [page3] with a session started. *)
Definition session3 : state := state_of (startSession counting page3).

Definition wrong : Option := mkOption "Z" false.
Definition right : Option := mkOption "Z" true.

End Sample.

(** ** The life cycle of the page *)

Definition set_loading (v : bool) (s : state) : state :=
  {| loading := v; error := error s; allQuestions := allQuestions s;
     domains := domains s; selectedDomains := selectedDomains s;
     minQuestions := minQuestions s; sessionQuestions := sessionQuestions s;
     sessionStarted := sessionStarted s; currentIndex := currentIndex s;
     currentOptions := currentOptions s; status := status s;
     statusMessage := statusMessage s;
     autoAdvanceTimeout := autoAdvanceTimeout s; timers := timers s;
     nextTimerId := nextTimerId s; now := now s |}.

Definition set_allQuestions (v : list Question) (s : state) : state :=
  {| loading := loading s; error := error s; allQuestions := v;
     domains := domains s; selectedDomains := selectedDomains s;
     minQuestions := minQuestions s; sessionQuestions := sessionQuestions s;
     sessionStarted := sessionStarted s; currentIndex := currentIndex s;
     currentOptions := currentOptions s; status := status s;
     statusMessage := statusMessage s;
     autoAdvanceTimeout := autoAdvanceTimeout s; timers := timers s;
     nextTimerId := nextTimerId s; now := now s |}.

Definition set_domains (v : list string) (s : state) : state :=
  {| loading := loading s; error := error s; allQuestions := allQuestions s;
     domains := v; selectedDomains := selectedDomains s;
     minQuestions := minQuestions s; sessionQuestions := sessionQuestions s;
     sessionStarted := sessionStarted s; currentIndex := currentIndex s;
     currentOptions := currentOptions s; status := status s;
     statusMessage := statusMessage s;
     autoAdvanceTimeout := autoAdvanceTimeout s; timers := timers s;
     nextTimerId := nextTimerId s; now := now s |}.

(** The script's variables with their declared initial values, in a browser
    with no timeout pending. *)
Definition declared : state :=
  {| loading := true; error := None; allQuestions := []; domains := [];
     selectedDomains := ∅; minQuestions := 10; sessionQuestions := [];
     sessionStarted := false; currentIndex := 0; currentOptions := [];
     status := Idle; statusMessage := ""; autoAdvanceTimeout := None;
     timers := []; nextTimerId := 0; now := 0 |}.

(** What [fetch("/Quiz.json")] and [res.json()] come to: the records of the
    file, or an error caught by the [catch] block, with its [message] if it
    has one. *)
Inductive loadResult : Type :=
  | Loaded (data : list Question)
  | LoadFailed (message : option string).

(** [domainSet.add(q.domain || "General")]: a [Set] keeps its elements in
    the order of their first insertion. *)
Definition addDomain (acc : list string) (q : Question) : list string :=
  if decide (domain_or_general q ∈ acc) then acc
  else acc ++ [domain_or_general q].

(** [Array.from(domainSet)] after the [forEach]. *)
Definition collectDomains (qs : list Question) : list string :=
  foldl addDomain [] qs.

Definition loadFailedMessage : string := "Failed to load questions.".

(** The callback of [onMount].  [sort] stands for [Array.prototype.sort]
    on strings, of which the properties below use only that it permutes
    its argument. *)
Definition onMount (sort : list string → list string) (r : loadResult)
    (s : state) : state :=
  match r with
  | Loaded data =>
      let s1 := set_allQuestions (attachIndices 0 data) s in
      let ds := sort (collectDomains (allQuestions s1)) in
      set_loading false
        (set_selectedDomains (list_to_set ds) (set_domains ds s1))
  | LoadFailed message =>
      set_loading false
        (set_error (Some (default loadFailedMessage message)) s)
  end.

(** The callback of [onDestroy]. *)
Definition onDestroy (s : state) : state :=
  match autoAdvanceTimeout s with
  | Some id => set_autoAdvanceTimeout None (set_timers (clearTimeout id (timers s)) s)
  | None => s
  end.

(** A sequence of events, one after the other; [None] when one of them
    cannot happen. *)
Fixpoint run (es : list event) (s : state) : option state :=
  match es with
  | [] => Some s
  | e :: es' =>
      match handle e s with
      | Some c => run es' (state_of c)
      | None => None
      end
  end.

(** An answer click that carries an incorrect option. *)
Definition is_miss (e : event) : bool :=
  match e with
  | AnswerClick o => negb (correct o)
  | _ => false
  end.

Definition misses (es : list event) : nat :=
  length (filter (λ e, is_miss e = true) es).

(** No start button is clicked in the sequence. *)
Definition no_restart (es : list event) : Prop :=
  Forall (λ e, match e with StartClick _ => False | _ => True end) es.

(** The domain list is the list of the domains of the store, and the
    selection is taken from it. *)
Definition domains_cover (s : state) : Prop :=
  (∀ d, d ∈ domains s ↔ ∃ q, q ∈ allQuestions s ∧ domain_or_general q = d) ∧
  selectedDomains s ⊆ list_to_set (domains s).

(** The status message goes with the status. *)
Definition message_of (st : Status) : string :=
  match st with
  | Idle => ""
  | Correct => "Correct!"
  | Incorrect => "Incorrect."
  end.

(** While a session is started on a defined question, the options on
    display are those of that question. *)
Definition options_of_current (s : state) : Prop :=
  sessionStarted s = true →
  ∀ q, deref (allQuestions s) (queue_at s (currentIndex s)) = Some q →
       ∃ g, currentOptions s = (buildOptionsForQuestion (allQuestions s) g q).1.

(** A sequence of events in which every handler returns; [None] when an
    event cannot happen or its handler throws. *)
Fixpoint runReturning (es : list event) (s : state) : option state :=
  match es with
  | [] => Some s
  | e :: es' =>
      match handle e s with
      | Some (Normal s1) => runReturning es' s1
      | _ => None
      end
  end.

(** An answer click that carries the correct option. *)
Definition is_right (e : event) : bool :=
  match e with
  | AnswerClick o => correct o
  | _ => false
  end.

(** A run of the timeout callback. *)
Definition is_fire (e : event) : bool :=
  match e with
  | TimerFire _ _ => true
  | _ => false
  end.

Definition rightAnswers (es : list event) : nat :=
  length (filter (λ e, is_right e = true) es).

Definition timerFires (es : list event) : nat :=
  length (filter (λ e, is_fire e = true) es).

(** * Properties *)

(** ** The shuffle *)

Section shuffle.
Context {A : Type}.
Implicit Types (a : list A) (g : random).

Lemma random_floor_le g i : random_floor g (i + 1) ≤ i.
Proof.
  unfold random_floor.
  pose proof (Nat.mod_upper_bound (g 0) (i + 1)). lia.
Qed.

Lemma swap_length a i j : length (swap a i j) = length a.
Proof.
  unfold swap. destruct (a !! i), (a !! j); try done.
  by rewrite !length_insert.
Qed.

Lemma insert_as_cons a i x y :
  a !! i = Some x → <[i := y]> a ≡ₚ y :: delete i a.
Proof.
  revert i. induction a as [|z a IH]; intros [|i] Hi; simplify_eq/=; [done|].
  rewrite (IH i Hi). apply perm_swap.
Qed.

Lemma swap_Permutation a i j : swap a i j ≡ₚ a.
Proof.
  unfold swap.
  destruct (a !! i) as [ai|] eqn:Hi; [|done].
  destruct (a !! j) as [aj|] eqn:Hj; [|done].
  destruct (decide (i = j)) as [->|Hne].
  { simplify_eq. rewrite list_insert_insert_eq. by rewrite list_insert_id. }
  assert (<[i := aj]> a !! j = Some aj) as Hj'
    by (by rewrite list_lookup_insert_ne).
  revert j Hj Hne Hj'. revert i Hi.
  induction a as [|z a IH]; intros [|i] Hi [|j] Hj Hne Hj'; simplify_eq/=.
  - rewrite (insert_as_cons a j aj ai Hj).
    rewrite (delete_Permutation a j aj Hj) at 2. apply perm_swap.
  - rewrite (insert_as_cons a i ai aj Hi).
    rewrite (delete_Permutation a i ai Hi) at 2. apply perm_swap.
  - constructor. apply IH; auto.
Qed.

Lemma shuffle_loop_Permutation i g a : (shuffle_loop i g a).1 ≡ₚ a.
Proof.
  revert g a. induction i as [|i IH]; intros g a; [done|].
  cbn [shuffle_loop]. rewrite IH. apply swap_Permutation.
Qed.

Lemma shuffleArray_Permutation g a : (shuffleArray g a).1 ≡ₚ a.
Proof. apply shuffle_loop_Permutation. Qed.

Lemma shuffleArray_length g a : length (shuffleArray g a).1 = length a.
Proof. apply Permutation_length, shuffleArray_Permutation. Qed.

(** Every index the loop touches lies inside the array. *)
Lemma shuffle_indices_in_range g a i :
  i < length a →
  is_Some (a !! i) ∧ is_Some (a !! random_floor g (i + 1)).
Proof.
  intros Hi. pose proof (random_floor_le g i).
  split; apply lookup_lt_is_Some; lia.
Qed.
End shuffle.

(** C9. [shuffleArray] permutes its argument: for every array and every
    run of the random source, the output has the same elements with the
    same multiplicities as the input.  [shuffleArray] is generic, so this
    covers the shuffle of the options, whose texts are therefore the same
    multiset before and after, and the shuffle of the candidates. *)
Theorem shuffleArray_permutes {A} (g : random) (arr : list A) :
  (shuffleArray g arr).1 ≡ₚ arr ∧
  (∀ options : list Option,
     text <$> (shuffleArray g options).1 ≡ₚ text <$> options) ∧
  (∀ candidates : list qref, (shuffleArray g candidates).1 ≡ₚ candidates).
Proof.
  assert (∀ B (l : list B), (shuffleArray g l).1 ≡ₚ l) as Hperm.
  { intros B l. unfold shuffleArray. generalize (length l - 1). intros n.
    revert g l. induction n as [|n IH]; intros g l; cbn [shuffle_loop].
    - reflexivity.
    - etransitivity; [apply IH|apply swap_Permutation]. }
  split; [apply Hperm|]. split; [|apply Hperm].
  intros options. apply fmap_Permutation, Hperm.
Qed.

(** ** The option builder *)

Lemma push_dummy_spec (opts : list Option) (seen : gset string) (l : list jsval) :
  ∃ ext : list Option,
    (foldl push_dummy (opts, seen) l).1 = opts ++ ext ∧
    Forall (λ o, correct o = false) ext ∧
    (foldl push_dummy (opts, seen) l).2 =
      seen ∪ list_to_set
        (omap (λ t, match t with JString s => Some s | JNotString => None end) l) ∧
    length ext =
      size (list_to_set (C := gset string)
        (omap (λ t, match t with JString s => Some s | JNotString => None end) l)
        ∖ seen).
Proof.
  revert opts seen. induction l as [|t l IH]; intros opts seen.
  - exists []. cbn. rewrite app_nil_r.
    repeat split; [done|set_solver|].
    replace (∅ ∖ seen) with (∅ : gset string) by set_solver. by rewrite size_empty.
  - destruct t as [x|]; cbn [foldl push_dummy omap list_omap]; cbn [fst snd].
    + destruct (decide (x ∈ seen)) as [Hin|Hout].
      * destruct (IH opts seen) as (ext & H1 & H2 & H3 & H4).
        exists ext. repeat split; try done.
        -- rewrite H3. cbn. set_solver.
        -- rewrite H4. f_equal. cbn. set_solver.
      * destruct (IH (opts ++ [mkOption x false]) ({[x]} ∪ seen))
          as (ext & H1 & H2 & H3 & H4).
        exists (mkOption x false :: ext). repeat split.
        -- rewrite H1. by rewrite <- app_assoc.
        -- by constructor.
        -- rewrite H3. cbn. set_solver.
        -- cbn [length]. rewrite H4. cbn [list_to_set].
           set (T := list_to_set _ : gset string).
           replace (({[x]} ∪ T) ∖ seen) with ({[x]} ∪ T ∖ ({[x]} ∪ seen)).
           ++ symmetry. rewrite size_union by set_solver.
              by rewrite size_singleton.
           ++ apply set_eq. intros y. rewrite !elem_of_union, !elem_of_difference,
                !elem_of_union, !elem_of_singleton.
              destruct (decide (y = x)); naive_solver.
    + apply IH.
Qed.

Lemma push_distractor_spec (acc : list Option * gset string) (l : list string) :
  (foldl push_distractor acc l).1 = acc.1 ++ ((λ t, mkOption t false) <$> l).
Proof.
  revert acc. induction l as [|t l IH]; intros acc; cbn.
  - by rewrite app_nil_r.
  - rewrite IH. cbn. by rewrite <- app_assoc.
Qed.

(** The list handed to the final shuffle: the correct option, then options
    that are all marked incorrect. *)
Lemma optionsBeforeShuffle_shape allQuestions g q :
  ∃ ext : list Option,
    (optionsBeforeShuffle allQuestions g q).1
      = mkOption (correctAnswer q) true :: ext ∧
    Forall (λ o, correct o = false) ext.
Proof.
  unfold optionsBeforeShuffle.
  destruct (push_dummy_spec [mkOption (correctAnswer q) true] {[correctAnswer q]}
              (default [] (dummyAnswers q))) as (ext & H1 & H2 & _ & _).
  case_match; cbn [fst].
  - rewrite push_distractor_spec, H1. cbn. eexists. split; [done|].
    apply Forall_app. split; [done|]. apply Forall_fmap. by apply Forall_true.
  - rewrite H1. cbn. by exists ext.
Qed.

Lemma filter_is_correct_none (l : list Option) :
  Forall (λ o, correct o = false) l → filter is_correct l = [].
Proof.
  induction 1 as [|o l Ho _ IH]; [done|].
  rewrite filter_cons_False; [done|]. unfold is_correct. by rewrite Ho.
Qed.

(** C1. For every question record [q], whatever the store and the random
    numbers, the options returned by [buildOptionsForQuestion] contain
    exactly one option marked correct, and its text is [q.correctAnswer]. *)
Theorem buildOptions_exactly_one_correct allQuestions g q :
  filter is_correct (buildOptionsForQuestion allQuestions g q).1
    = [mkOption (correctAnswer q) true].
Proof.
  unfold buildOptionsForQuestion.
  destruct (optionsBeforeShuffle_shape allQuestions g q) as (ext & Hpre & Hext).
  apply Permutation_singleton_r.
  rewrite (shuffleArray_Permutation _ _), Hpre.
  rewrite filter_cons_True by done.
  by rewrite filter_is_correct_none.
Qed.

(** The pool of a question holds the correct answer of every record but
    the one at its own index. *)
Lemma distractors_from_delete idx qs e :
  distractors_from idx qs e =
    correctAnswer <$> (if decide (idx ≤ e) then delete (e - idx) qs else qs).
Proof.
  revert idx. induction qs as [|q qs IH]; intros idx; cbn.
  - by case_decide.
  - rewrite IH.
    destruct (decide (idx = e)) as [->|Hne]; repeat case_decide; try lia.
    + by rewrite Nat.sub_diag.
    + by replace (e - idx) with (S (e - S idx)) by lia.
    + done.
Qed.

Lemma getGlobalDistractorPool_others allQuestions i :
  getGlobalDistractorPool allQuestions (Some i)
    = correctAnswer <$> delete i allQuestions.
Proof.
  cbn. rewrite distractors_from_delete, decide_True by lia.
  by rewrite Nat.sub_0_r.
Qed.

Lemma attachIndices_lookup idx data i q :
  attachIndices idx data !! i = Some q →
  __index q = Some (idx + i) ∧
  ∃ q0, data !! i = Some q0 ∧ correctAnswer q = correctAnswer q0 ∧
        dummyAnswers q = dummyAnswers q0 ∧ domain q = domain q0.
Proof.
  revert idx i q. induction data as [|q0 data IH]; intros idx [|i] q Hq;
    simplify_eq/=.
  - rewrite Nat.add_0_r. split; [done|]. by eexists.
  - destruct (IH _ _ _ Hq) as (-> & Hrest).
    split; [f_equal; lia|done].
Qed.

Lemma length_filter_fresh (seen : gset string) (l : list string) :
  NoDup l →
  length (filter (λ t, t ∉ seen) l) = size (list_to_set (C := gset string) l ∖ seen).
Proof.
  intros Hl.
  rewrite <- (size_list_to_set (C := gset string)) by by apply NoDup_filter.
  f_equal. apply set_eq. intros x.
  rewrite elem_of_difference, !elem_of_list_to_set, list_elem_of_filter.
  tauto.
Qed.

(** What the builder does, without any assumption: the correct option, the
    new dummy answers, and as many pool entries as are needed to reach four,
    pool entries counted with their repetitions. *)
Lemma buildOptions_length allQuestions g q :
  length (buildOptionsForQuestion allQuestions g q).1 =
    1 + size (uniqueDummies q) +
    (3 - size (uniqueDummies q)) `min`
      length (filter (λ t, t ∉ ({[correctAnswer q]} ∪ dummyTexts q : gset string))
                (getGlobalDistractorPool allQuestions (__index q))).
Proof.
  unfold buildOptionsForQuestion. rewrite shuffleArray_length.
  unfold optionsBeforeShuffle, uniqueDummies, dummyTexts, desiredOptionCount.
  cbv zeta.
  destruct (push_dummy_spec [mkOption (correctAnswer q) true] {[correctAnswer q]}
              (default [] (dummyAnswers q))) as (ext & H1 & _ & H3 & H4).
  rewrite H1, H3. cbn [length app]. rewrite <- H4.
  case_match eqn:Hneed; cbn [fst].
  - apply Z.ltb_lt in Hneed.
    rewrite push_distractor_spec, H1. cbn [length app].
    rewrite length_app, length_fmap, length_take, shuffleArray_length. lia.
  - apply Z.ltb_ge in Hneed. cbn [length app] in *. lia.
Qed.

(** C2 (amended). When the correct answers of the other questions are
    pairwise distinct, the number of options is
    [max(1 + d, min(4, 1 + d + x))], where [d] counts the unique dummy
    answers that differ from the correct answer and [x] the other
    questions' answers that are neither the correct answer nor a dummy
    answer: all dummy answers are kept even beyond four options.  A dummy
    answer equal to the correct answer is dropped: the only option carrying
    the correct answer's text is the one marked correct. *)
Theorem buildOptions_count allQuestions g q :
  NoDup (getGlobalDistractorPool allQuestions (__index q)) →
  length (buildOptionsForQuestion allQuestions g q).1 =
    (1 + size (uniqueDummies q)) `max` specOptionCount allQuestions q ∧
  (size (uniqueDummies q) ≤ 3 →
   length (buildOptionsForQuestion allQuestions g q).1 =
     specOptionCount allQuestions q) ∧
  ∀ o, o ∈ (buildOptionsForQuestion allQuestions g q).1 →
       text o = correctAnswer q → correct o = true.
Proof.
  intros Hpool. rewrite buildOptions_length, length_filter_fresh by done.
  unfold specOptionCount, availableDistractors.
  split; [lia|]. split; [lia|].
  intros o Ho Htext.
  unfold buildOptionsForQuestion in Ho.
  rewrite (shuffleArray_Permutation _ _) in Ho.
  unfold optionsBeforeShuffle in Ho. cbv zeta in Ho.
  destruct (push_dummy_spec [mkOption (correctAnswer q) true] {[correctAnswer q]}
              (default [] (dummyAnswers q))) as (ext & H1 & _ & H3 & H4).
  assert (∀ o', o' ∈ ext → text o' ≠ correctAnswer q) as Hext.
  { clear -H1. revert H1. revert ext.
    generalize (default [] (dummyAnswers q)). intros l.
    generalize (correctAnswer q). intros c.
    assert (∀ (opts : list Option) (seen : gset string) ext,
              c ∈ seen → (foldl push_dummy (opts, seen) l).1 = opts ++ ext →
              ∀ o', o' ∈ ext → text o' ≠ c) as Hgen.
    { induction l as [|t l IH]; intros opts seen ext Hc Heq o' Ho'.
      - cbn in Heq. rewrite <- (app_nil_r opts) in Heq at 1.
        apply app_inv_head in Heq. subst ext. by apply elem_of_nil in Ho'.
      - destruct t as [x|]; cbn [foldl push_dummy fst snd] in Heq.
        + destruct (decide (x ∈ seen)) as [Hin|Hout].
          * by eapply (IH opts seen ext).
          * destruct (push_dummy_spec (opts ++ [mkOption x false]) ({[x]} ∪ seen) l)
              as (ext' & E1 & _).
            rewrite E1, <- app_assoc in Heq. apply app_inv_head in Heq.
            subst ext. cbn in Ho'. apply elem_of_cons in Ho' as [->|Ho'].
            -- cbn. intros ->. done.
            -- eapply (IH (opts ++ [mkOption x false]) ({[x]} ∪ seen) ext');
                 [set_solver|done|done].
        + by eapply (IH opts seen ext). }
    intros ext H1. eapply Hgen; [|exact H1]. set_solver. }
  case_match; cbn [fst] in Ho.
  - rewrite push_distractor_spec, H1 in Ho. cbn in Ho.
    apply elem_of_cons in Ho as [->|Ho]; [done|].
    apply elem_of_app in Ho as [Ho|Ho]; [by apply Hext in Ho|].
    apply list_elem_of_fmap in Ho as (t & -> & Ht). cbn in Htext. subst t.
    apply elem_of_take in Ht as (i & Ht & _).
    apply list_elem_of_lookup_2 in Ht.
    rewrite (shuffleArray_Permutation _ _) in Ht.
    apply list_elem_of_filter in Ht as [Ht _]. rewrite H3 in Ht. set_solver.
  - rewrite H1 in Ho. cbn in Ho.
    apply elem_of_cons in Ho as [->|Ho]; [done|]. by apply Hext in Ho.
Qed.

Lemma buildOptions_count_witness :
  length (buildOptionsForQuestion Sample.store3 Sample.counting
            (Sample.ask "Net" "A" None 0)).1
    = specOptionCount Sample.store3 (Sample.ask "Net" "A" None 0).
Proof.
  assert (NoDup (getGlobalDistractorPool Sample.store3
                   (__index (Sample.ask "Net" "A" None 0)))) as Hpool
    by (apply (bool_decide_unpack _); vm_compute; exact I).
  destruct (buildOptions_count Sample.store3 Sample.counting
              (Sample.ask "Net" "A" None 0) Hpool) as (_ & Hcount & _).
  apply Hcount. vm_compute. lia.
Defined.

(** C2, as stated, fails on a question with four dummy answers: all of them
    are kept and the builder returns five options, where the stated formula
    gives four. *)
Lemma buildOptions_count_counterexample :
  length (buildOptionsForQuestion [Sample.fourDummies] Sample.zeros
            Sample.fourDummies).1 = 5 ∧
  specOptionCount [Sample.fourDummies] Sample.fourDummies = 4.
Proof. split; vm_compute; reflexivity. Qed.

(** The top-up loop does not consult [seen]: when two other questions share
    a correct answer, both copies become options. *)
Example buildOptions_repeated_distractor :
  text <$> (buildOptionsForQuestion Sample.storeDup Sample.zeros
              (Sample.ask "Net" "A" None 0)).1 = ["B"; "B"; "A"] ∧
  specOptionCount Sample.storeDup (Sample.ask "Net" "A" None 0) = 2.
Proof. split; vm_compute; reflexivity. Qed.

(** The scenario of the specification: dummy answers A, B, C and correct
    answer D give exactly the four options, D marked correct. *)
Example buildOptions_three_dummies :
  (buildOptionsForQuestion Sample.store3 Sample.counting
     (Sample.ask "Net" "D" (Some [JString "A"; JString "B"; JString "C"]) 0)).1
    ≡ₚ [mkOption "D" true; mkOption "A" false; mkOption "B" false;
        mkOption "C" false].
Proof. unfold buildOptionsForQuestion. by rewrite (shuffleArray_Permutation _ _). Qed.

(** A dummy answer equal to the correct answer, a repeated one and a
    non-string one are all skipped. *)
Example buildOptions_repeating :
  (buildOptionsForQuestion [Sample.repeating] Sample.zeros Sample.repeating).1
    = [mkOption "B" false; mkOption "A" true].
Proof. vm_compute. reflexivity. Qed.

(** ** Frame facts of the helpers *)

Ltac page_simpl :=
  cbn [loading error allQuestions domains selectedDomains minQuestions
       sessionQuestions sessionStarted currentIndex currentOptions status
       statusMessage autoAdvanceTimeout timers nextTimerId now
       set_error set_selectedDomains set_minQuestions set_sessionQuestions
       set_sessionStarted set_currentIndex set_currentOptions set_status
       set_statusMessage set_autoAdvanceTimeout set_timers set_nextTimerId
       set_now state_of returns] in *.

Lemma clearAutoAdvanceTimer_same s :
  same_session s (clearAutoAdvanceTimer s) ∧
  status (clearAutoAdvanceTimer s) = status s ∧
  statusMessage (clearAutoAdvanceTimer s) = statusMessage s.
Proof.
  unfold clearAutoAdvanceTimer, same_session.
  destruct (autoAdvanceTimeout s); page_simpl; by repeat split.
Qed.

Lemma clearAutoAdvanceTimer_timers s :
  single_timer s →
  timers (clearAutoAdvanceTimer s) = [] ∧
  nextTimerId (clearAutoAdvanceTimer s) = nextTimerId s.
Proof.
  unfold clearAutoAdvanceTimer, single_timer.
  intros [Hnone|(id & t & Htbl & Hslot & _)].
  - destruct (autoAdvanceTimeout s); page_simpl; [|done].
    by rewrite Hnone.
  - rewrite Hslot. page_simpl. rewrite Htbl. unfold clearTimeout.
    split; [|done]. rewrite filter_cons_False; [done|]. cbn. tauto.
Qed.

Lemma queue_at_lookup s i r :
  sessionQuestions s !! i = Some r → queue_at s i = r.
Proof. unfold queue_at. by intros ->. Qed.

(** ** [handleAnswerClick] *)

Lemma handleAnswerClick_error option s :
  error (handleAnswerClick option s) = error s.
Proof.
  unfold handleAnswerClick.
  destruct (decide (status s ≠ Idle)) as [_|_]; [done|].
  destruct (clearAutoAdvanceTimer_same s) as ((_ & He & _) & _).
  destruct (correct option).
  - unfold scheduleAutoAdvance. set (s1 := set_statusMessage _ _).
    destruct (clearAutoAdvanceTimer_same s1) as ((_ & He' & _) & _).
    subst s1. page_simpl. by rewrite He'.
  - page_simpl. by case_bool_decide.
Qed.

(** What [handleAnswerClick] leaves alone. *)
Lemma handleAnswerClick_session option s :
  currentIndex (handleAnswerClick option s) = currentIndex s ∧
  currentOptions (handleAnswerClick option s) = currentOptions s ∧
  (sessionQuestions (handleAnswerClick option s) = sessionQuestions s ∨
   correct option = false ∧ status s = Idle ∧
   (queue_at s (currentIndex s)
      ∉ drop (currentIndex s + 1) (sessionQuestions s)) ∧
   sessionQuestions (handleAnswerClick option s)
     = sessionQuestions s ++ [queue_at s (currentIndex s)]) ∧
  loading (handleAnswerClick option s) = loading s ∧
  allQuestions (handleAnswerClick option s) = allQuestions s ∧
  domains (handleAnswerClick option s) = domains s ∧
  selectedDomains (handleAnswerClick option s) = selectedDomains s ∧
  minQuestions (handleAnswerClick option s) = minQuestions s ∧
  sessionStarted (handleAnswerClick option s) = sessionStarted s ∧
  now (handleAnswerClick option s) = now s.
Proof.
  unfold handleAnswerClick.
  destruct (decide (status s ≠ Idle)) as [_|Hidle]; [by repeat split; auto|].
  apply dec_stable in Hidle.
  destruct (clearAutoAdvanceTimer_same s)
    as ((Hl & He & Ha & Hd & Hsd & Hm & Hq & Hst & Hi & Ho & Hn) & _ & _).
  destruct (correct option) eqn:Hc.
  - unfold scheduleAutoAdvance.
    set (s1 := set_statusMessage _ _).
    destruct (clearAutoAdvanceTimer_same s1)
      as ((Hl' & He' & Ha' & Hd' & Hsd' & Hm' & Hq' & Hst' & Hi' & Ho' & Hn') & _ & _).
    subst s1. page_simpl.
    rewrite Hl', Ha', Hd', Hsd', Hm', Hq', Hst', Hi', Ho', Hn'.
    rewrite Hl, Ha, Hd, Hsd, Hm, Hq, Hst, Hi, Ho, Hn.
    by repeat split; auto.
  - unfold queue_at. page_simpl. rewrite Hq, Hi.
    case_bool_decide; page_simpl;
      rewrite ?Hl, ?Ha, ?Hd, ?Hsd, ?Hm, ?Hq, ?Hst, ?Hi, ?Ho, ?Hn;
      repeat split; auto.
Qed.

(** C10. For every state and every option, [handleAnswerClick] leaves the
    position, the displayed options and every other session field alone; the
    existing entries of the queue stay where they are, and the queue either
    is unchanged or, for an incorrect option, has the current reference
    appended once.  Only the status, its message and the timer may change.
    The earlier version of the handler changes the status and its message
    only. *)
Theorem handleAnswerClick_frame option s :
  (currentIndex (handleAnswerClick option s) = currentIndex s ∧
   currentOptions (handleAnswerClick option s) = currentOptions s ∧
   sessionQuestions s `prefix_of` sessionQuestions (handleAnswerClick option s) ∧
   (sessionQuestions (handleAnswerClick option s) = sessionQuestions s ∨
    correct option = false ∧
    sessionQuestions (handleAnswerClick option s)
      = sessionQuestions s ++ [queue_at s (currentIndex s)]) ∧
   loading (handleAnswerClick option s) = loading s ∧
   error (handleAnswerClick option s) = error s ∧
   allQuestions (handleAnswerClick option s) = allQuestions s ∧
   domains (handleAnswerClick option s) = domains s ∧
   selectedDomains (handleAnswerClick option s) = selectedDomains s ∧
   minQuestions (handleAnswerClick option s) = minQuestions s ∧
   sessionStarted (handleAnswerClick option s) = sessionStarted s ∧
   now (handleAnswerClick option s) = now s) ∧
  (same_session s (Earlier.handleAnswerClick option s) ∧
   autoAdvanceTimeout (Earlier.handleAnswerClick option s) = autoAdvanceTimeout s ∧
   timers (Earlier.handleAnswerClick option s) = timers s ∧
   nextTimerId (Earlier.handleAnswerClick option s) = nextTimerId s).
Proof.
  split.
  - destruct (handleAnswerClick_session option s)
      as (Hi & Ho & Hq & Hl & Ha & Hd & Hsd & Hm & Hst & Hn).
    pose proof (handleAnswerClick_error option s) as He.
    repeat split; try done.
    + destruct Hq as [->|(_ & _ & _ & ->)]; [done|]. by apply prefix_app_r.
    + destruct Hq as [->|(? & _ & _ & ->)]; auto.
  - unfold Earlier.handleAnswerClick, same_session.
    destruct (decide (status s ≠ Idle)); [done|].
    by destruct (correct option).
Qed.

(** ** The candidates of a session *)

Lemma candidates_from_bounds idx qs ds r :
  r ∈ candidates_from idx qs ds →
  ∃ a q, r = Ref a ∧ idx ≤ a ∧ qs !! (a - idx) = Some q ∧
         domain_or_general q ∈ ds.
Proof.
  revert idx. induction qs as [|q qs IH]; intros idx Hr; cbn in Hr.
  - by apply elem_of_nil in Hr.
  - assert (r ∈ candidates_from (S idx) qs ds →
            ∃ a q', r = Ref a ∧ idx ≤ a ∧ (q :: qs) !! (a - idx) = Some q' ∧
                    domain_or_general q' ∈ ds) as Htail.
    { intros (a & q' & -> & Ha & Hq & Hd)%IH. exists a, q'.
      repeat split; [lia| |done].
      replace (a - idx) with (S (a - S idx)) by lia. done. }
    destruct (decide (domain_or_general q ∈ ds)) as [Hd|Hd]; [|by apply Htail].
    apply elem_of_cons in Hr as [->|Hr]; [|by apply Htail].
    exists idx, q. rewrite Nat.sub_diag. by repeat split.
Qed.

Lemma candidates_from_complete idx qs ds i q :
  qs !! i = Some q → domain_or_general q ∈ ds →
  Ref (idx + i) ∈ candidates_from idx qs ds.
Proof.
  revert idx i. induction qs as [|q' qs IH]; intros idx [|i] Hq Hd;
    simplify_eq/=.
  - rewrite decide_True by done. rewrite Nat.add_0_r. by left.
  - replace (idx + S i) with (S idx + i) by lia.
    destruct (decide (domain_or_general q' ∈ ds)); [right|]; by apply IH.
Qed.

Lemma candidates_from_NoDup idx qs ds : NoDup (candidates_from idx qs ds).
Proof.
  revert idx. induction qs as [|q qs IH]; intros idx; cbn; [constructor|].
  destruct (decide (domain_or_general q ∈ ds)); [|apply IH].
  constructor; [|apply IH].
  intros (a & q' & [= <-] & Ha & _)%candidates_from_bounds. lia.
Qed.

Lemma matchingCandidates_in_store s r :
  r ∈ matchingCandidates s → ∃ a, r = Ref a ∧ a < length (allQuestions s).
Proof.
  intros (a & q & -> & _ & Hq & _)%candidates_from_bounds.
  exists a. split; [done|]. rewrite Nat.sub_0_r in Hq.
  by apply lookup_lt_Some in Hq.
Qed.

(** The candidates are exactly the objects of the store whose domain is
    among the active ones. *)
Lemma matchingCandidates_spec s a :
  Ref a ∈ matchingCandidates s ↔
  ∃ q, allQuestions s !! a = Some q ∧ domain_or_general q ∈ activeDomainsOf s.
Proof.
  split.
  - intros (a' & q & [= <-] & _ & Hq & Hd)%candidates_from_bounds.
    rewrite Nat.sub_0_r in Hq. eauto.
  - intros (q & Hq & Hd).
    by apply (candidates_from_complete 0 _ _ a q).
Qed.

Lemma slice0_take {A} (a : list A) (e : Z) :
  ∃ k, slice0 a e = take k a ∧
       ((0 ≤ e)%Z → k = Z.to_nat e `min` length a) ∧
       ((e < 0)%Z → k = length a - Z.to_nat (- e)).
Proof.
  unfold slice0. eexists. split; [done|].
  split; intros He.
  - rewrite (proj2 (Z.ltb_ge e 0)) by lia. lia.
  - rewrite (proj2 (Z.ltb_lt e 0)) by lia. lia.
Qed.

(** ** [prepareCurrentQuestion] and [startSession] *)

Lemma prepareCurrentQuestion_frame g s :
  sessionQuestions (state_of (prepareCurrentQuestion g s)) = sessionQuestions s ∧
  currentIndex (state_of (prepareCurrentQuestion g s)) = currentIndex s ∧
  sessionStarted (state_of (prepareCurrentQuestion g s)) = sessionStarted s ∧
  allQuestions (state_of (prepareCurrentQuestion g s)) = allQuestions s ∧
  error (state_of (prepareCurrentQuestion g s)) = error s ∧
  loading (state_of (prepareCurrentQuestion g s)) = loading s ∧
  timers (state_of (prepareCurrentQuestion g s)) = timers s ∧
  autoAdvanceTimeout (state_of (prepareCurrentQuestion g s)) = autoAdvanceTimeout s ∧
  nextTimerId (state_of (prepareCurrentQuestion g s)) = nextTimerId s ∧
  now (state_of (prepareCurrentQuestion g s)) = now s.
Proof.
  unfold prepareCurrentQuestion. by case_match.
Qed.

Lemma prepareCurrentQuestion_returns g s :
  returns (prepareCurrentQuestion g s) = true ↔
  is_Some (deref (allQuestions s) (queue_at s (currentIndex s))).
Proof.
  unfold prepareCurrentQuestion. case_match; cbn.
  - split; eauto.
  - split; [done|]. by intros [? ?].
Qed.

(** The three ways through [startSession]. *)
Lemma startSession_cases g s :
  (allQuestions s = [] ∧ startSession g s = Normal s) ∨
  (allQuestions s ≠ [] ∧ matchingCandidates s = [] ∧
   ∃ s2, startSession g s = Normal (set_error (Some noCandidatesMessage) s2) ∧
         sessionQuestions s2 = sessionQuestions s ∧
         currentIndex s2 = currentIndex s ∧
         sessionStarted s2 = sessionStarted s ∧
         currentOptions s2 = currentOptions s ∧
         status s2 = status s ∧ statusMessage s2 = statusMessage s ∧
         allQuestions s2 = allQuestions s ∧ loading s2 = loading s ∧
         timers s2 = timers (clearAutoAdvanceTimer s) ∧
         autoAdvanceTimeout s2 = None ∧
         nextTimerId s2 = nextTimerId s ∧ now s2 = now s) ∨
  (allQuestions s ≠ [] ∧ matchingCandidates s ≠ [] ∧
   ∃ s2 queue,
     startSession g s =
       prepareCurrentQuestion (shuffleArray g (matchingCandidates s)).2
         (set_sessionStarted true
            (set_currentIndex 0 (set_sessionQuestions queue s2))) ∧
     queue =
       (if (minQuestions s <? Z.of_nat (length (matchingCandidates s)))%Z
        then slice0 (shuffleArray g (matchingCandidates s)).1 (minQuestions s)
        else (shuffleArray g (matchingCandidates s)).1) ∧
     allQuestions s2 = allQuestions s ∧ error s2 = error s ∧
     loading s2 = loading s ∧ status s2 = status s ∧
     timers s2 = timers (clearAutoAdvanceTimer s) ∧
     autoAdvanceTimeout s2 = None ∧
     nextTimerId s2 = nextTimerId s ∧ now s2 = now s).
Proof.
  unfold startSession, matchingCandidates, activeDomainsOf.
  destruct (decide (length (allQuestions s) = 0)) as [Hlen|Hlen].
  { left. split; [|done]. by apply nil_length_inv. }
  right.
  assert (allQuestions s ≠ []) as Hne by (by intros Heq; rewrite Heq in Hlen).
  destruct (clearAutoAdvanceTimer_same s)
    as ((Hl & He & Ha & Hd & Hsd & Hm & Hq & Hst & Hi & Ho & Hn) & Hs & Hsm).
  assert (autoAdvanceTimeout (clearAutoAdvanceTimer s) = None ∧
          nextTimerId (clearAutoAdvanceTimer s) = nextTimerId s) as [Hslot Hid].
  { unfold clearAutoAdvanceTimer. by destruct (autoAdvanceTimeout s) eqn:E. }
  rewrite Hsd.
  set (s2 := if decide (length (elements (selectedDomains s)) = 0)
             then set_selectedDomains (list_to_set (domains (clearAutoAdvanceTimer s)))
                    (clearAutoAdvanceTimer s)
             else clearAutoAdvanceTimer s).
  assert (allQuestions s2 = allQuestions s ∧ minQuestions s2 = minQuestions s ∧
          domains (clearAutoAdvanceTimer s) = domains s) as (Ha2 & Hm2 & Hd2).
  { subst s2. by case_decide; page_simpl. }
  rewrite Ha2, Hm2, Hd2.
  set (cands := candidates_from 0 (allQuestions s) _).
  destruct (decide (length cands = 0)) as [Hc|Hc].
  - left. split; [done|]. split; [by apply nil_length_inv|].
    exists s2. split; [done|].
    subst s2. case_decide; page_simpl; by repeat split.
  - right. split; [done|]. split; [by intros Heq; rewrite Heq in Hc|].
    rewrite shuffleArray_length.
    eexists s2, _. split; [done|]. split; [done|].
    subst s2. case_decide; page_simpl; by repeat split.
Qed.

Lemma startSession_queue_length g s :
  allQuestions s ≠ [] → matchingCandidates s ≠ [] → (1 ≤ minQuestions s)%Z →
  0 < length (sessionQuestions (state_of (startSession g s))).
Proof.
  intros Hq Hc Hmin.
  destruct (startSession_cases g s)
    as [[? _]|[(_ & ? & _)|(_ & _ & s2 & queue & -> & Hqueue & _)]]; [done..|].
  destruct (prepareCurrentQuestion_frame
              (shuffleArray g (matchingCandidates s)).2
              (set_sessionStarted true
                 (set_currentIndex 0 (set_sessionQuestions queue s2))))
    as (-> & _).
  page_simpl. subst queue.
  assert (0 < length (matchingCandidates s)) as Hlen.
  { destruct (matchingCandidates s); [done|cbn; lia]. }
  case_match.
  - destruct (slice0_take (shuffleArray g (matchingCandidates s)).1 (minQuestions s))
      as (k & -> & Hk & _).
    rewrite length_take, Hk, !shuffleArray_length by lia. lia.
  - by rewrite shuffleArray_length.
Qed.




(** No handler ever resets [error]; [startSession] is the only one that
    writes it. *)
Lemma handle_error e s c :
  handle e s = Some c →
  error (state_of c) = error s ∨ error (state_of c) = Some noCandidatesMessage.
Proof.
  assert (∀ g s0, error (state_of (nextQuestion g s0)) = error s0) as Hnext.
  { intros g s0. unfold nextQuestion.
    destruct (sessionStarted s0); cbn [negb]; [|done].
    destruct (clearAutoAdvanceTimer_same s0) as ((_ & He & _) & _).
    case_match.
    - destruct (prepareCurrentQuestion_frame g
                  (set_currentIndex (currentIndex (clearAutoAdvanceTimer s0) + 1)
                     (clearAutoAdvanceTimer s0))) as (_ & _ & _ & _ & -> & _).
      done.
    - done. }
  destruct e as [d|n|g|o|g|id g|dt]; cbn [handle]; intros Hc; simplify_eq.
  - left. unfold toggleDomain. by case_decide.
  - by left.
  - destruct (startSession_cases g s)
      as [[_ ->]|[(_ & _ & s2 & -> & _)|(_ & _ & s2 & queue & -> & _ & _ & He & _)]].
    + by left.
    + by right.
    + left. destruct (prepareCurrentQuestion_frame
                        (shuffleArray g (matchingCandidates s)).2
                        (set_sessionStarted true
                           (set_currentIndex 0 (set_sessionQuestions queue s2))))
        as (_ & _ & _ & _ & -> & _). done.
  - left. cbn. apply (handleAnswerClick_error o s).
  - left. apply Hnext.
  - left. unfold fireTimer in Hc. case_match; simplify_eq. by rewrite Hnext.
  - by left.
Qed.

(** C7 (amended). With an empty store [startSession] returns at once
    without reporting anything.  When the store is not empty and no question
    matches the active domains, [startSession] returns without throwing,
    with the queue, the position, the started flag and the status as they
    were, and stores the no-candidates message in [error].  That is the
    variable a failed load uses: the page then renders the error message in
    place of the whole quiz (no domain box, no start button), and no handler
    resets it. *)
Theorem startSession_no_candidates g s :
  (allQuestions s = [] → startSession g s = Normal s) ∧
  (allQuestions s ≠ [] → matchingCandidates s = [] →
   ∃ s', startSession g s = Normal s' ∧
         error s' = Some noCandidatesMessage ∧
         sessionQuestions s' = sessionQuestions s ∧
         currentIndex s' = currentIndex s ∧
         sessionStarted s' = sessionStarted s ∧
         status s' = status s ∧
         (loading s = false →
          render s' = ErrorView noCandidatesMessage ∧ ∀ e, offers s' e = false) ∧
         (∀ e c, handle e s' = Some c →
                 error (state_of c) = Some noCandidatesMessage)).
Proof.
  split.
  { intros Hnil. unfold startSession. by rewrite decide_True by (by rewrite Hnil). }
  intros Hq Hc.
  destruct (startSession_cases g s)
    as [[? _]|[(_ & _ & s2 & -> & Hsq & Hi & Hst & _ & Hs & _ & _ & Hl & _)
              |(_ & ? & _)]]; [done| |done].
  eexists. split; [done|]. page_simpl.
  do 5 (split; [done|]). split; [intros Hload; split|].
  - unfold render. page_simpl. by rewrite Hl, Hload.
  - intros e. unfold offers, render. page_simpl. rewrite Hl, Hload.
    by destruct e.
  - intros e c Hh. by destruct (handle_error _ _ _ Hh) as [->| ->].
Qed.

Lemma startSession_no_candidates_witness :
  startSession Sample.zeros (Sample.fresh [] []) = Normal (Sample.fresh [] []) ∧
  ∃ s', startSession Sample.zeros
          (set_selectedDomains {["Ops"]} Sample.page3) = Normal s' ∧
        error s' = Some noCandidatesMessage.
Proof.
  assert (allQuestions (set_selectedDomains {["Ops"]} Sample.page3) ≠ [])
    as Hstore by discriminate.
  assert (matchingCandidates (set_selectedDomains {["Ops"]} Sample.page3) = [])
    as Hcands by (vm_compute; reflexivity).
  destruct (startSession_no_candidates Sample.zeros (Sample.fresh [] []))
    as (Hempty & _).
  destruct (startSession_no_candidates Sample.zeros
              (set_selectedDomains {["Ops"]} Sample.page3))
    as (_ & Hnone).
  destruct (Hnone Hstore Hcands) as (s' & H1 & H2 & _).
  split; [exact (Hempty eq_refl)|].
  exists s'. exact (conj H1 H2).
Defined.

(** C7, as stated, fails twice.  On a page mounted with an empty file the
    candidate set is empty and [startSession] reports nothing.  And where
    the message is reported, for a selection that matches no question, it
    replaces the page: neither the domain boxes nor the start button are
    offered any more. *)
Lemma startSession_no_candidates_counterexample :
  (reachable (Sample.fresh [] []) ∧
   matchingCandidates (Sample.fresh [] []) = [] ∧
   error (state_of (startSession Sample.zeros (Sample.fresh [] []))) = None) ∧
  (matchingCandidates (set_selectedDomains {["Ops"]} Sample.page3) = [] ∧
   render (state_of (startSession Sample.zeros
                       (set_selectedDomains {["Ops"]} Sample.page3)))
     = ErrorView noCandidatesMessage ∧
   offers (state_of (startSession Sample.zeros
                       (set_selectedDomains {["Ops"]} Sample.page3)))
     (DomainToggle "Net") = false ∧
   offers (state_of (startSession Sample.zeros
                       (set_selectedDomains {["Ops"]} Sample.page3)))
     (StartClick Sample.zeros) = false).
Proof.
  split.
  - split; [apply reachable_mounted; by repeat split|].
    split; vm_compute; reflexivity.
  - repeat split; vm_compute; reflexivity.
Qed.

(** ** [nextQuestion] *)

Lemma nextQuestion_cases g s :
  (sessionStarted s = false ∧ nextQuestion g s = Normal s) ∨
  (sessionStarted s = true ∧
   currentIndex s + 1 < length (sessionQuestions s) ∧
   nextQuestion g s =
     prepareCurrentQuestion g
       (set_currentIndex (currentIndex s + 1) (clearAutoAdvanceTimer s))) ∨
  (sessionStarted s = true ∧
   length (sessionQuestions s) ≤ currentIndex s + 1 ∧
   nextQuestion g s =
     Normal (set_sessionStarted false
               (set_statusMessage "" (set_status Idle (clearAutoAdvanceTimer s))))).
Proof.
  unfold nextQuestion.
  destruct (sessionStarted s); cbn [negb]; [right|by left].
  destruct (clearAutoAdvanceTimer_same s)
    as ((_ & _ & _ & _ & _ & _ & Hq & _ & Hi & _) & _).
  rewrite Hq, Hi.
  destruct (Z.ltb_spec (Z.of_nat (currentIndex s))
              (Z.of_nat (length (sessionQuestions s)) - 1)).
  - left. repeat split; try done; lia.
  - right. repeat split; try done; lia.
Qed.

Lemma nextQuestion_position g s :
  position_in_range s → position_in_range (state_of (nextQuestion g s)).
Proof.
  intros Hpos.
  destruct (clearAutoAdvanceTimer_same s)
    as ((_ & _ & _ & _ & _ & _ & Hq & Hst & Hi & _) & _).
  destruct (nextQuestion_cases g s) as [[_ ->]|[(_ & Hlt & ->)|(_ & _ & ->)]].
  - done.
  - unfold position_in_range.
    destruct (prepareCurrentQuestion_frame g
                (set_currentIndex (currentIndex s + 1) (clearAutoAdvanceTimer s)))
      as (-> & -> & -> & _).
    page_simpl. rewrite Hq. lia.
  - unfold position_in_range. by page_simpl.
Qed.

Lemma handleAnswerClick_position option s :
  position_in_range s → position_in_range (handleAnswerClick option s).
Proof.
  unfold position_in_range.
  destruct (handleAnswerClick_session option s)
    as (-> & _ & Hq & _ & _ & _ & _ & _ & -> & _).
  intros Hpos Hst. specialize (Hpos Hst).
  destruct Hq as [->|(_ & _ & _ & ->)]; [done|].
  rewrite length_app. lia.
Qed.

Lemma startSession_position g s :
  position_in_range s → (1 ≤ minQuestions s)%Z →
  position_in_range (state_of (startSession g s)).
Proof.
  intros Hpos Hmin.
  destruct (startSession_cases g s)
    as [[_ ->]|[(_ & _ & s2 & -> & Hsq & Hi & Hst & _)
               |(Hq & Hc & s2 & queue & Heq & _)]].
  - done.
  - unfold position_in_range. page_simpl. by rewrite Hsq, Hi, Hst.
  - pose proof (startSession_queue_length g s Hq Hc Hmin) as Hlen.
    unfold position_in_range. intros _.
    rewrite Heq in *.
    destruct (prepareCurrentQuestion_frame
                (shuffleArray g (matchingCandidates s)).2
                (set_sessionStarted true
                   (set_currentIndex 0 (set_sessionQuestions queue s2))))
      as (Hq' & -> & _).
    rewrite Hq' in *. by page_simpl.
Qed.

(** What does hold of the invariant "while the session is started, the
    position is below the length of the queue": it is preserved by
    [startSession] when [minQuestions] is at least 1, by
    [handleAnswerClick], by [nextQuestion] and by the firing of the
    timer. *)
Theorem position_in_range_preserved s :
  position_in_range s →
  (∀ g, (1 ≤ minQuestions s)%Z →
        position_in_range (state_of (startSession g s))) ∧
  (∀ option, position_in_range (handleAnswerClick option s)) ∧
  (∀ g, position_in_range (state_of (nextQuestion g s))) ∧
  (∀ id g c, fireTimer id g s = Some c → position_in_range (state_of c)).
Proof.
  intros Hpos. repeat split.
  - intros g Hmin. by apply startSession_position.
  - intros o. by apply handleAnswerClick_position.
  - intros g. by apply nextQuestion_position.
  - intros id g c Hfire. unfold fireTimer in Hfire.
    case_match; simplify_eq. by apply nextQuestion_position.
Qed.

Lemma position_in_range_preserved_witness :
  position_in_range (handleAnswerClick Sample.wrong Sample.session3).
Proof.
  assert (position_in_range Sample.session3) as Hpos
    by (intros _; vm_compute; lia).
  destruct (position_in_range_preserved Sample.session3 Hpos)
    as (_ & Hanswer & _).
  exact (Hanswer Sample.wrong).
Defined.

(** With [minQuestions = 0] on the sample page the queue is cut to
    nothing, the session is marked started, and building the options of
    the missing first question throws. *)
Lemma position_in_range_counterexample :
  position_in_range (set_minQuestions 0 Sample.page3) ∧
  sessionStarted (state_of (startSession Sample.counting
                              (set_minQuestions 0 Sample.page3))) = true ∧
  sessionQuestions (state_of (startSession Sample.counting
                                (set_minQuestions 0 Sample.page3))) = [] ∧
  returns (startSession Sample.counting (set_minQuestions 0 Sample.page3)) = false ∧
  ¬ position_in_range (state_of (startSession Sample.counting
                                   (set_minQuestions 0 Sample.page3))).
Proof.
  split; [intros Hst; vm_compute in Hst; discriminate|].
  repeat split; try (vm_compute; reflexivity).
  intros Hpos. specialize (Hpos eq_refl). vm_compute in Hpos. lia.
Qed.

(** ** Totality of [handleAnswerClick] and [nextQuestion] *)

Lemma handleAnswerClick_miss option s :
  status s = Idle → correct option = false →
  sessionQuestions (handleAnswerClick option s) =
    if bool_decide (queue_at s (currentIndex s)
                      ∈ drop (currentIndex s + 1) (sessionQuestions s))
    then sessionQuestions s
    else sessionQuestions s ++ [queue_at s (currentIndex s)].
Proof.
  intros Hidle Hwrong. unfold handleAnswerClick.
  rewrite decide_False by (by intros H; apply H).
  rewrite Hwrong.
  destruct (clearAutoAdvanceTimer_same s)
    as ((_ & _ & _ & _ & _ & _ & Hq & _ & Hi & _) & _).
  unfold queue_at. page_simpl. rewrite Hq, Hi.
  by case_bool_decide.
Qed.

Lemma active_current s :
  active s →
  ∃ a, sessionQuestions s !! currentIndex s = Some (Ref a) ∧
       a < length (allQuestions s).
Proof.
  intros (_ & Hlt & Hstore).
  destruct (lookup_lt_is_Some_2 _ _ Hlt) as [r Hr].
  unfold queue_in_store in Hstore. rewrite Forall_lookup in Hstore.
  destruct (Hstore _ _ Hr) as (a & -> & Ha). eauto.
Qed.

Lemma handleAnswerClick_active option s :
  active s → active (handleAnswerClick option s).
Proof.
  intros Hact. destruct (active_current s Hact) as (a & Hcur & Ha).
  destruct Hact as (Hst & Hlt & Hstore).
  unfold active, queue_in_store.
  destruct (handleAnswerClick_session option s)
    as (-> & _ & Hq & _ & -> & _ & _ & _ & -> & _).
  destruct Hq as [->|(_ & _ & _ & ->)]; [done|].
  split; [done|]. split; [rewrite length_app; lia|].
  apply Forall_app. split; [done|].
  rewrite (queue_at_lookup _ _ _ Hcur). apply Forall_singleton. eauto.
Qed.

Lemma nextQuestion_active g s :
  active s →
  ∃ s', nextQuestion g s = Normal s' ∧ settled s'.
Proof.
  intros (Hst & Hlt & Hstore).
  destruct (clearAutoAdvanceTimer_same s)
    as ((_ & _ & Ha & _ & _ & _ & Hq & Hst' & Hi & _) & _).
  destruct (nextQuestion_cases g s) as [[? _]|[(_ & Hnext & ->)|(_ & _ & ->)]];
    [congruence| |].
  - set (s1 := set_currentIndex _ _).
    assert (active s1) as Hact.
    { subst s1. unfold active, queue_in_store. page_simpl.
      rewrite Hst', Hq, Ha. repeat split; [done|lia|done]. }
    destruct (active_current s1 Hact) as (a & Hcur & Hlen).
    unfold prepareCurrentQuestion.
    rewrite (queue_at_lookup _ _ _ Hcur). cbn [deref].
    destruct (lookup_lt_is_Some_2 _ _ Hlen) as [q ->].
    eexists. split; [done|]. right.
    destruct Hact as (? & ? & ?). unfold active, queue_in_store. by page_simpl.
  - eexists. split; [done|]. by left.
Qed.

Lemma startSession_settled g s s' :
  startSession g s = Normal s' → settled s → settled s'.
Proof.
  intros Hstart Hs.
  destruct (startSession_cases g s)
    as [[_ Heq]|[(_ & _ & s2 & Heq & Hsq & Hi & Hst & _ & _ & _ & Ha & _)
                |(_ & _ & s2 & queue & Heq & Hqueue & Ha & _)]];
    rewrite Heq in Hstart.
  - by simplify_eq.
  - simplify_eq. unfold settled, active, queue_in_store in *. page_simpl.
    by rewrite Hsq, Hi, Hst, Ha.
  - right. set (s3 := set_sessionStarted _ _) in *.
    pose proof (proj1 (prepareCurrentQuestion_returns
                         (shuffleArray g (matchingCandidates s)).2 s3)) as Hret.
    rewrite Hstart in Hret. destruct (Hret eq_refl) as [q Hq].
    destruct (prepareCurrentQuestion_frame
                (shuffleArray g (matchingCandidates s)).2 s3)
      as (Hq' & Hi' & Hst' & Ha' & _).
    rewrite Hstart in Hq', Hi', Hst', Ha'. cbn [state_of] in *.
    unfold active, queue_in_store. rewrite Hq', Hi', Hst', Ha'.
    subst s3. page_simpl. unfold queue_at in Hq. page_simpl.
    split; [done|]. split.
    + destruct queue; [done|cbn; lia].
    + rewrite Ha. apply Forall_forall. intros r Hr.
      apply matchingCandidates_in_store.
      rewrite <- (shuffleArray_Permutation g (matchingCandidates s)).
      rewrite Hqueue in Hr. case_match; [|done].
      unfold slice0 in Hr. apply elem_of_take in Hr as (i & Hr & _).
      by apply list_elem_of_lookup_2 in Hr.
Qed.

(** The guards and the absence of exceptions: [handleAnswerClick] does
    nothing unless the status is idle, and
    [nextQuestion] does nothing unless a session is started.  A
    [startSession] that returns leaves either no session or one in progress
    on a well-formed queue; from such a session [handleAnswerClick] yields
    such a session again, and [nextQuestion] (called by the button or by the
    timer) returns, without throwing, such a session or the ended one. *)
Theorem answer_and_advance_total :
  (∀ option s, status s ≠ Idle → handleAnswerClick option s = s) ∧
  (∀ g s, sessionStarted s = false → nextQuestion g s = Normal s) ∧
  (∀ g s s', startSession g s = Normal s' → settled s → settled s') ∧
  (∀ option s, active s → active (handleAnswerClick option s)) ∧
  (∀ g s, active s → ∃ s', nextQuestion g s = Normal s' ∧ settled s') ∧
  (∀ id g s c, active s → fireTimer id g s = Some c →
               ∃ s', c = Normal s' ∧ settled s').
Proof.
  split; [|split; [|split; [|split; [|split]]]].
  - intros o s Hs. unfold handleAnswerClick. by rewrite decide_True.
  - intros g s Hs. unfold nextQuestion. by rewrite Hs.
  - apply startSession_settled.
  - apply handleAnswerClick_active.
  - apply nextQuestion_active.
  - intros id g s c Hact Hfire. unfold fireTimer in Hfire.
    case_match; simplify_eq.
    apply nextQuestion_active.
    destruct Hact as (? & ? & ?). unfold active, queue_in_store. by page_simpl.
Qed.

Lemma session3_active : active Sample.session3.
Proof.
  unfold active, queue_in_store.
  assert (sessionQuestions Sample.session3 = [Ref 2; Ref 0; Ref 1]) as ->
    by (vm_compute; reflexivity).
  assert (currentIndex Sample.session3 = 0) as ->
    by (vm_compute; reflexivity).
  assert (allQuestions Sample.session3 = Sample.store3) as ->
    by (vm_compute; reflexivity).
  split; [vm_compute; reflexivity|]. split; [cbn; lia|].
  repeat constructor; eexists; (split; [reflexivity|cbn; lia]).
Defined.

Lemma answer_and_advance_total_witness :
  active (handleAnswerClick Sample.wrong Sample.session3) ∧
  ∃ s', nextQuestion Sample.zeros Sample.session3 = Normal s' ∧ settled s'.
Proof.
  destruct answer_and_advance_total as (_ & _ & _ & Hanswer & Hnext & _).
  exact (conj (Hanswer Sample.wrong Sample.session3 session3_active)
              (Hnext Sample.zeros Sample.session3 session3_active)).
Defined.

(** ** Invariants of the reachable states *)

Lemma clearAutoAdvanceTimer_slot s :
  autoAdvanceTimeout (clearAutoAdvanceTimer s) = None.
Proof. unfold clearAutoAdvanceTimer. by destruct (autoAdvanceTimeout s) eqn:E. Qed.

Lemma clearAutoAdvanceTimer_idle s :
  autoAdvanceTimeout s = None → clearAutoAdvanceTimer s = s.
Proof. unfold clearAutoAdvanceTimer. by intros ->. Qed.

Lemma NoDup_drop_more {A} (l : list A) (n m : nat) :
  n ≤ m → NoDup (drop n l) → NoDup (drop m l).
Proof.
  intros Hnm. replace m with (n + (m - n)) by lia.
  rewrite <- drop_drop. intros Hn.
  eapply sublist_NoDup; [exact Hn|apply sublist_drop].
Qed.

(** What [handleAnswerClick] does to the timer when it gets past its guard. *)
Lemma handleAnswerClick_timer option s :
  single_timer s → status s = Idle →
  if correct option then
    timers (handleAnswerClick option s)
      = [(nextTimerId s, now s + autoAdvanceDelay)] ∧
    autoAdvanceTimeout (handleAnswerClick option s) = Some (nextTimerId s) ∧
    nextTimerId (handleAnswerClick option s) = S (nextTimerId s) ∧
    status (handleAnswerClick option s) = Correct
  else
    timers (handleAnswerClick option s) = [] ∧
    status (handleAnswerClick option s) = Incorrect.
Proof.
  intros Htimer Hidle. unfold handleAnswerClick.
  rewrite decide_False by (by intros H; apply H).
  destruct (clearAutoAdvanceTimer_timers s Htimer) as [Htbl Hid].
  pose proof (clearAutoAdvanceTimer_slot s) as Hslot.
  destruct (clearAutoAdvanceTimer_same s) as ((_ & _ & _ & _ & _ & _ & _ & _ & _ & _ & Hn) & _).
  destruct (correct option).
  - unfold scheduleAutoAdvance.
    rewrite clearAutoAdvanceTimer_idle by done.
    page_simpl. by rewrite Htbl, Hid, Hn.
  - page_simpl. by case_bool_decide.
Qed.

Lemma handleAnswerClick_invariant option s :
  page_invariant s → page_invariant (handleAnswerClick option s).
Proof.
  intros (Hpend & Htimer & Hcorrect).
  destruct (decide (status s = Idle)) as [Hidle|Hbusy]; last first.
  { unfold handleAnswerClick. by rewrite decide_True. }
  split; [|split].
  - unfold pending_distinct in *.
    destruct (handleAnswerClick_session option s) as (-> & _ & Hq & _).
    destruct Hq as [->|(_ & _ & Hfresh & ->)]; [done|].
    rewrite drop_app. apply NoDup_app. split; [done|]. split.
    + intros r Hr Hr'. apply subseteq_drop in Hr'.
      apply list_elem_of_singleton in Hr' as ->. done.
    + eapply sublist_NoDup; [apply NoDup_singleton|apply sublist_drop].
  - pose proof (handleAnswerClick_timer option s Htimer Hidle) as Ht.
    unfold single_timer.
    destruct (correct option).
    + destruct Ht as (-> & -> & -> & _). right. eexists _, _.
      repeat split; lia.
    + destruct Ht as (-> & _). by left.
  - pose proof (handleAnswerClick_timer option s Htimer Hidle) as Ht.
    unfold timer_means_correct.
    destruct (correct option).
    + by destruct Ht as (_ & _ & _ & ->).
    + by destruct Ht as (-> & _).
Qed.

Lemma nextQuestion_timers g s :
  single_timer s → sessionStarted s = true →
  timers (state_of (nextQuestion g s)) = [].
Proof.
  intros Htimer Hst.
  destruct (clearAutoAdvanceTimer_timers s Htimer) as [Htbl _].
  destruct (nextQuestion_cases g s) as [[? _]|[(_ & _ & ->)|(_ & _ & ->)]];
    [congruence| |].
  - destruct (prepareCurrentQuestion_frame g
                (set_currentIndex (currentIndex s + 1) (clearAutoAdvanceTimer s)))
      as (_ & _ & _ & _ & _ & _ & -> & _).
    by page_simpl.
  - by page_simpl.
Qed.

Lemma nextQuestion_invariant g s :
  page_invariant s → page_invariant (state_of (nextQuestion g s)).
Proof.
  intros (Hpend & Htimer & Hcorrect).
  destruct (clearAutoAdvanceTimer_same s)
    as ((_ & _ & _ & _ & _ & _ & Hq & _ & Hi & _) & _).
  destruct (nextQuestion_cases g s) as [[_ ->]|[(Hst & Hlt & Heq)|(Hst & _ & Heq)]];
    [done| |].
  - pose proof (nextQuestion_timers g s Htimer Hst) as Htbl.
    rewrite Heq in *.
    destruct (prepareCurrentQuestion_frame g
                (set_currentIndex (currentIndex s + 1) (clearAutoAdvanceTimer s)))
      as (Hq' & Hi' & _).
    unfold page_invariant, pending_distinct, single_timer, timer_means_correct.
    rewrite Hq', Hi', Htbl. page_simpl. rewrite Hq.
    split; [|split; [by left|done]].
    eapply NoDup_drop_more; [|exact Hpend]. lia.
  - pose proof (nextQuestion_timers g s Htimer Hst) as Htbl.
    rewrite Heq in *.
    unfold page_invariant, pending_distinct, single_timer, timer_means_correct.
    rewrite Htbl. page_simpl. rewrite Hq, Hi.
    split; [done|split; [by left|done]].
Qed.

Lemma startSession_invariant g s :
  page_invariant s → page_invariant (state_of (startSession g s)).
Proof.
  intros (Hpend & Htimer & Hcorrect).
  destruct (clearAutoAdvanceTimer_timers s Htimer) as [Htbl _].
  destruct (startSession_cases g s)
    as [[_ ->]|[(_ & _ & s2 & -> & Hsq & Hi & _ & _ & _ & _ & _ & _ & Ht & _)
               |(_ & _ & s2 & queue & -> & Hqueue & _ & _ & _ & _ & Ht & _)]].
  - done.
  - unfold page_invariant, pending_distinct, single_timer, timer_means_correct.
    page_simpl. rewrite Hsq, Hi, Ht, Htbl.
    split; [done|split; [by left|done]].
  - destruct (prepareCurrentQuestion_frame
                (shuffleArray g (matchingCandidates s)).2
                (set_sessionStarted true
                   (set_currentIndex 0 (set_sessionQuestions queue s2))))
      as (Hq' & Hi' & _ & _ & _ & _ & Ht' & _).
    unfold page_invariant, pending_distinct, single_timer, timer_means_correct.
    rewrite Hq', Hi', Ht'. page_simpl. rewrite Ht, Htbl.
    split; [|split; [by left|done]].
    apply sublist_NoDup with (shuffleArray g (matchingCandidates s)).1.
    + rewrite (shuffleArray_Permutation _ _). apply candidates_from_NoDup.
    + etransitivity; [apply sublist_drop|]. rewrite Hqueue.
      case_match; [apply sublist_take|done].
Qed.

Lemma fireTimer_clears id g s c :
  single_timer s → fireTimer id g s = Some c →
  c = nextQuestion g (set_timers [] s) ∧
  ∃ t, timers s = [(id, t)] ∧ autoAdvanceTimeout s = Some id ∧ t ≤ now s.
Proof.
  intros Htimer Hfire. unfold fireTimer, due in Hfire.
  case_bool_decide as Hdue; [|done]. simplify_eq.
  destruct Htimer as [Hnone|(id' & t & Htbl & Hslot & _)].
  - rewrite Hnone in Hdue. by apply Exists_nil in Hdue.
  - rewrite Htbl in Hdue. apply Exists_cons in Hdue as [[Hid Ht]|Hdue];
      [|by apply Exists_nil in Hdue].
    cbn in Hid, Ht. subst id'. rewrite Htbl. unfold clearTimeout.
    rewrite filter_cons_False by (cbn; tauto). cbn. eauto.
Qed.

Lemma handle_invariant e s c :
  handle e s = Some c → page_invariant s → page_invariant (state_of c).
Proof.
  destruct e as [d|n|g|o|g|id g|dt]; cbn [handle]; intros Hc Hinv;
    try (simplify_eq; cbn [state_of]).
  - unfold toggleDomain. by case_decide.
  - done.
  - by apply startSession_invariant.
  - by apply handleAnswerClick_invariant.
  - by apply nextQuestion_invariant.
  - destruct (fireTimer_clears id g s c (proj1 (proj2 Hinv)) Hc) as (-> & _).
    apply nextQuestion_invariant.
    destruct Hinv as (Hpend & _ & _).
    split; [done|]. split; [by left|by intros Hne].
  - done.
Qed.

Lemma reachable_invariant s : reachable s → page_invariant s.
Proof.
  induction 1 as [s (_ & Hq & _ & _ & _ & _ & _ & _ & Ht)|s e c _ IH Hc].
  - unfold page_invariant, pending_distinct, single_timer, timer_means_correct.
    rewrite Hq, Ht. split; [|split; [by left|done]].
    rewrite drop_nil. constructor.
  - by eapply handle_invariant.
Qed.

(** ** Re-queueing a missed question *)




Lemma session3_reachable : reachable Sample.session3.
Proof.
  refine (reachable_handle Sample.page3 (StartClick Sample.counting)
            (startSession Sample.counting Sample.page3) _ eq_refl).
  apply reachable_mounted. unfold mounted. cbn. by repeat split.
Defined.


(** The scenario of the specification: three questions, the first one
    missed.  It comes back at index 3, the queue has length 4, and the
    session ends after the fourth view. *)
Example requeue_scenario :
  let s1 := handleAnswerClick Sample.wrong Sample.session3 in
  let s2 := state_of (nextQuestion Sample.zeros s1) in
  let s3 := state_of (nextQuestion Sample.zeros (handleAnswerClick Sample.right s2)) in
  let s4 := state_of (nextQuestion Sample.zeros (handleAnswerClick Sample.right s3)) in
  let s5 := state_of (nextQuestion Sample.zeros (handleAnswerClick Sample.right s4)) in
  sessionQuestions s1 = [Ref 2; Ref 0; Ref 1; Ref 2] ∧
  currentIndex s4 = 3 ∧ sessionStarted s4 = true ∧
  sessionStarted s5 = false.
Proof. vm_compute. by repeat split. Qed.

(** ** The auto-advance timer *)

Lemma fireTimer_is_nextQuestion id g s c :
  single_timer s → sessionStarted s = true →
  fireTimer id g s = Some c → c = nextQuestion g s.
Proof.
  intros Htimer Hst Hfire.
  destruct (fireTimer_clears id g s c Htimer Hfire) as (-> & t & Htbl & Hslot & _).
  unfold nextQuestion. page_simpl. rewrite Hst. cbn [negb].
  assert (clearAutoAdvanceTimer (set_timers [] s) = clearAutoAdvanceTimer s) as ->; [|done].
  unfold clearAutoAdvanceTimer. page_simpl. rewrite Hslot, Htbl.
  unfold clearTimeout. rewrite filter_cons_False by (cbn; tauto). done.
Qed.

(** The timer, state by state: in every reachable state at most one
    timeout is pending, it is the one in the slot, and it is pending only while the status is
    answered-correct.  A correct answer arms exactly one timeout, due after
    the delay and not before.  When it fires during a session it performs
    exactly the transition of [nextQuestion]: to the next question, or to
    the end after the last one.  [nextQuestion], whether called by the
    button or by the timer, leaves no timeout pending, so no timeout can
    fire after it until another question has been answered correctly. *)
Theorem auto_advance_once s :
  reachable s →
  single_timer s ∧ timer_means_correct s ∧
  (∀ option, status s = Idle → correct option = true →
     timers (handleAnswerClick option s)
       = [(nextTimerId s, now s + autoAdvanceDelay)] ∧
     autoAdvanceTimeout (handleAnswerClick option s) = Some (nextTimerId s) ∧
     status (handleAnswerClick option s) = Correct ∧
     ∀ dt g,
       fireTimer (nextTimerId s) g
         (set_now (now s + dt) (handleAnswerClick option s)) =
       if bool_decide (autoAdvanceDelay ≤ dt)
       then Some (nextQuestion g
                    (set_timers [] (set_now (now s + dt)
                                      (handleAnswerClick option s))))
       else None) ∧
  (∀ id g c, sessionStarted s = true → fireTimer id g s = Some c →
     c = nextQuestion g s ∧ status s = Correct) ∧
  (∀ g, sessionStarted s = true →
     timers (state_of (nextQuestion g s)) = [] ∧
     (∀ id g', fireTimer id g' (state_of (nextQuestion g s)) = None) ∧
     (currentIndex s + 1 < length (sessionQuestions s) →
      currentIndex (state_of (nextQuestion g s)) = currentIndex s + 1 ∧
      sessionStarted (state_of (nextQuestion g s)) = true) ∧
     (length (sessionQuestions s) ≤ currentIndex s + 1 →
      sessionStarted (state_of (nextQuestion g s)) = false)).
Proof.
  intros Hreach.
  destruct (reachable_invariant s Hreach) as (_ & Htimer & Hcorrect).
  split; [done|]. split; [done|]. split; [|split].
  - intros o Hidle Hright.
    pose proof (handleAnswerClick_timer o s Htimer Hidle) as Ht.
    rewrite Hright in Ht. destruct Ht as (Htbl & Hslot & _ & Hst).
    do 3 (split; [done|]).
    intros dt g. unfold fireTimer, due. page_simpl. rewrite Htbl.
    unfold clearTimeout. rewrite filter_cons_False by (cbn; tauto).
    rewrite filter_nil.
    rewrite (bool_decide_ext _ (autoAdvanceDelay ≤ dt)); [done|].
    rewrite Exists_cons, Exists_nil. cbn. lia.
  - intros id g c Hst Hfire. split.
    + by eapply fireTimer_is_nextQuestion.
    + destruct (fireTimer_clears id g s c Htimer Hfire) as (_ & t & Htbl & _).
      apply Hcorrect. by rewrite Htbl.
  - intros g Hst.
    pose proof (nextQuestion_timers g s Htimer Hst) as Htbl.
    split; [done|]. split; [|split].
    + intros id g'. unfold fireTimer, due. rewrite Htbl.
      rewrite bool_decide_eq_false_2; [done|]. by intros ?%Exists_nil.
    + intros Hlt.
      destruct (nextQuestion_cases g s) as [[? _]|[(_ & _ & ->)|(_ & ? & _)]];
        [congruence| |lia].
      destruct (prepareCurrentQuestion_frame g
                  (set_currentIndex (currentIndex s + 1) (clearAutoAdvanceTimer s)))
        as (_ & -> & -> & _).
      destruct (clearAutoAdvanceTimer_same s)
        as ((_ & _ & _ & _ & _ & _ & _ & Hst' & _) & _).
      page_simpl. by rewrite Hst'.
    + intros Hge.
      destruct (nextQuestion_cases g s) as [[? _]|[(_ & ? & _)|(_ & _ & ->)]];
        [congruence|lia|done].
Qed.

Lemma auto_advance_once_witness : single_timer Sample.session3.
Proof.
  destruct (auto_advance_once Sample.session3 session3_reachable) as (Hone & _).
  exact Hone.
Defined.

(** * Further properties of the script *)

(** ** More on [shuffleArray] *)

Lemma swap_result {A} (a : list A) (i j : nat) (x y : A) :
  a !! i = Some x → a !! j = Some y → j ≤ i →
  swap a i j !! i = Some y ∧ drop (S i) (swap a i j) = drop (S i) a.
Proof.
  intros Hi Hj Hle. unfold swap. rewrite Hi, Hj.
  pose proof (lookup_lt_Some _ _ _ Hi) as Hlen.
  split.
  - destruct (decide (j = i)) as [->|Hne].
    + rewrite list_lookup_insert_eq by (by rewrite length_insert). congruence.
    + rewrite list_lookup_insert_ne by done. by rewrite list_lookup_insert_eq.
  - by rewrite !drop_insert_lt by lia.
Qed.

(** The loop can leave any arrangement of the first [i + 1] entries, and
    it never touches the entries behind them. *)
Lemma shuffle_loop_onto {A} (i : nat) (p s p' : list A) :
  length p = S i → p ≡ₚ p' →
  ∃ g, (shuffle_loop i g (p ++ s)).1 = p' ++ s.
Proof.
  revert p s p'. induction i as [|i IH]; intros p s p' Hlen Hperm.
  - exists (λ _, 0). cbn.
    destruct p as [|x [|??]]; simplify_eq/=.
    symmetry in Hperm. by apply Permutation_singleton_r in Hperm as ->.
  - pose proof (Permutation_length Hperm) as Hlen'. rewrite Hlen in Hlen'.
    destruct (decide (p' = [])) as [->|Hne]; [done|].
    destruct (exists_last Hne) as (q' & y & ->).
    assert (y ∈ p) as Hy by (rewrite Hperm; set_solver).
    apply list_elem_of_lookup_1 in Hy as [j Hj].
    pose proof (lookup_lt_Some _ _ _ Hj) as Hjlt.
    destruct (lookup_lt_is_Some_2 p (S i) ltac:(lia)) as [x Hx].
    destruct (swap_result (p ++ s) (S i) j x y) as [Hat Hdrop];
      [by apply lookup_app_l_Some..|lia|].
    set (a' := swap (p ++ s) (S i) j) in *.
    rewrite drop_app_length' in Hdrop by done.
    assert (a' = take (S i) a' ++ y :: s) as Ha'.
    { rewrite <- Hdrop. symmetry. by apply take_drop_middle. }
    assert (length (take (S i) a') = S i) as Hlen1.
    { apply length_take_le. unfold a'. rewrite swap_length, length_app. lia. }
    assert (take (S i) a' ≡ₚ q') as Hperm1.
    { apply (inj (.++ [y])). rewrite <- Hperm.
      apply (inj (.++ s)). rewrite <- !app_assoc. cbn. rewrite <- Ha'.
      apply swap_Permutation. }
    destruct (IH (take (S i) a') (y :: s) q' Hlen1 Hperm1) as [g' Hg'].
    exists (λ k, match k with 0 => j | S k' => g' k' end).
    cbn [shuffle_loop]. unfold random_floor, random_next.
    rewrite Nat.mod_small by lia. fold a'.
    rewrite Ha'. rewrite <- app_assoc. exact Hg'.
Qed.

(** X1. [shuffleArray] can return every arrangement of its argument: for
    each permutation of the array there are random numbers that make the
    loop produce it. *)
Theorem shuffleArray_onto {A} (arr arr' : list A) :
  arr ≡ₚ arr' → ∃ g, (shuffleArray g arr).1 = arr'.
Proof.
  intros Hperm. unfold shuffleArray.
  destruct arr as [|x arr].
  - apply Permutation_nil_l in Hperm. subst arr'. exists (λ _, 0). reflexivity.
  - destruct (shuffle_loop_onto (length arr) (x :: arr) [] arr' eq_refl Hperm)
      as [g Hg].
    exists g. rewrite !app_nil_r in Hg.
    by replace (length (x :: arr) - 1) with (length arr) by (cbn; lia).
Qed.

Lemma shuffleArray_onto_witness :
  ∃ g, (shuffleArray g [1; 2; 3]).1 = [3; 1; 2].
Proof.
  apply (shuffleArray_onto [1; 2; 3] [3; 1; 2]).
  apply (bool_decide_unpack _). vm_compute. exact I.
Defined.

Lemma shuffle_loop_draws {A} (i : nat) (g : random) (a : list A) (k : nat) :
  (shuffle_loop i g a).2 k = g (i + k).
Proof.
  revert g a. induction i as [|i IH]; intros g a; [done|].
  cbn [shuffle_loop]. rewrite IH. unfold random_next. done.
Qed.

(** X2. [shuffleArray] calls [Math.random] once per loop round, that is
    [length - 1] times; an array with at most one element takes no random
    number and comes back as it is. *)
Theorem shuffleArray_draws {A} (g : random) (arr : list A) :
  (∀ k, (shuffleArray g arr).2 k = g (length arr - 1 + k)) ∧
  (length arr ≤ 1 → (shuffleArray g arr).1 = arr).
Proof.
  split.
  - intros k. apply shuffle_loop_draws.
  - intros Hlen. unfold shuffleArray.
    by replace (length arr - 1) with 0 by lia.
Qed.

Lemma shuffleArray_draws_witness :
  (shuffleArray Sample.counting ["A"]).1 = ["A"].
Proof.
  apply (shuffleArray_draws Sample.counting ["A"]). cbn. lia.
Defined.

(** ** More on the option builder *)

(** On a store whose records all carry a string as [correctAnswer], as
    [type Question] declares: [getGlobalDistractorPool] returns nothing
    for an undefined index; for an index it returns the correct answers of
    the store in store order with the record at that index left out. *)
Theorem getGlobalDistractorPool_spec (allQuestions : list Question) :
  getGlobalDistractorPool allQuestions None = [] ∧
  (∀ i, getGlobalDistractorPool allQuestions (Some i)
          = correctAnswer <$> delete i allQuestions) ∧
  (∀ i, i < length allQuestions →
        length (getGlobalDistractorPool allQuestions (Some i))
          = length allQuestions - 1) ∧
  (∀ i, length allQuestions ≤ i →
        getGlobalDistractorPool allQuestions (Some i)
          = correctAnswer <$> allQuestions).
Proof.
  split; [done|]. split; [apply getGlobalDistractorPool_others|]. split.
  - intros i Hi. rewrite getGlobalDistractorPool_others, length_fmap.
    by rewrite length_delete by by apply lookup_lt_is_Some_2.
  - intros i Hi. rewrite getGlobalDistractorPool_others.
    f_equal. revert i Hi.
    induction allQuestions as [|q qs IH]; intros [|i] Hi; cbn in *;
      try done; try lia.
    f_equal. apply IH. lia.
Qed.

Lemma getGlobalDistractorPool_spec_witness :
  length (getGlobalDistractorPool Sample.store3 (Some 1)) = 2.
Proof.
  destruct (getGlobalDistractorPool_spec Sample.store3) as (_ & _ & Hlen & _).
  apply (Hlen 1). cbn. lia.
Defined.

(** The dummy answers that [perQ.forEach] turns into options: the strings
    of the array that are not in [seen], each once, in order of first
    appearance. *)
Lemma push_dummy_texts (opts : list Option) (seen : gset string) (l : list jsval) :
  ∃ ext : list string,
    (foldl push_dummy (opts, seen) l).1
      = opts ++ ((λ t, mkOption t false) <$> ext) ∧
    NoDup ext ∧
    (∀ t, t ∈ ext ↔
          t ∈ omap (λ t, match t with JString s => Some s | JNotString => None end) l
          ∧ t ∉ seen) ∧
    (foldl push_dummy (opts, seen) l).2 = seen ∪ list_to_set ext.
Proof.
  revert opts seen. induction l as [|t l IH]; intros opts seen.
  - exists []. cbn. rewrite app_nil_r.
    split; [done|]. split; [constructor|]. split; [|set_solver].
    intros t. split; [by intros ?%elem_of_nil|by intros [?%elem_of_nil _]].
  - destruct t as [x|]; cbn [foldl push_dummy omap list_omap]; cbn [fst snd].
    + destruct (decide (x ∈ seen)) as [Hin|Hout].
      * destruct (IH opts seen) as (ext & H1 & H2 & H3 & H4).
        exists ext. split; [done|]. split; [done|]. split; [|done].
        intros t. rewrite H3. cbn. rewrite elem_of_cons.
        split; [tauto|]. intros [[->|?] ?]; tauto.
      * destruct (IH (opts ++ [mkOption x false]) ({[x]} ∪ seen))
          as (ext & H1 & H2 & H3 & H4).
        exists (x :: ext). split; [|split; [|split]].
        -- rewrite H1. by rewrite <- app_assoc.
        -- constructor; [|done]. rewrite H3. set_solver.
        -- intros t. cbn. rewrite !elem_of_cons, H3.
           rewrite elem_of_union, elem_of_singleton.
           destruct (decide (t = x)) as [->|?]; tauto.
        -- rewrite H4. cbn. set_solver.
    + apply IH.
Qed.

(** The texts of the list handed to the final shuffle. *)
Lemma optionsBeforeShuffle_texts allQuestions g q :
  ∃ (ext : list string) (top : list string),
    (optionsBeforeShuffle allQuestions g q).1 =
      mkOption (correctAnswer q) true ::
      ((λ t, mkOption t false) <$> (ext ++ top)) ∧
    NoDup ext ∧
    (∀ t, t ∈ ext ↔ t ∈ uniqueDummies q) ∧
    top `sublist_of`
      (shuffleArray g
         (filter (λ t, t ∉ ({[correctAnswer q]} ∪ dummyTexts q : gset string))
            (getGlobalDistractorPool allQuestions (__index q)))).1.
Proof.
  unfold optionsBeforeShuffle. cbv zeta.
  destruct (push_dummy_texts [mkOption (correctAnswer q) true] {[correctAnswer q]}
              (default [] (dummyAnswers q))) as (ext & H1 & H2 & H3 & H4).
  assert ((foldl push_dummy
             ([mkOption (correctAnswer q) true], {[correctAnswer q]})
             (default [] (dummyAnswers q))).2
          = {[correctAnswer q]} ∪ dummyTexts q) as Hseen.
  { rewrite H4. unfold dummyTexts. apply set_eq. intros t.
    rewrite !elem_of_union, !elem_of_list_to_set, H3, elem_of_singleton.
    destruct (decide (t = correctAnswer q)); tauto. }
  assert (∀ t, t ∈ ext ↔ t ∈ uniqueDummies q) as Hext.
  { intros t. rewrite H3. unfold uniqueDummies, dummyTexts.
    rewrite elem_of_difference, elem_of_list_to_set. done. }
  case_match; cbn [fst].
  - rewrite push_distractor_spec, H1, Hseen. cbn [app].
    eexists ext, _. split; [by rewrite fmap_app|].
    split; [done|]. split; [done|]. apply sublist_take.
  - rewrite H1. cbn [app]. exists ext, [].
    rewrite app_nil_r. split; [done|]. split; [done|]. split; [done|].
    apply sublist_nil_l.
Qed.

(** X4. Every option marked incorrect carries a dummy answer of the
    question or the correct answer of another record of the store, never
    the question's own correct answer; and every string among the dummy
    answers other than the correct answer is offered. *)
Theorem buildOptions_provenance allQuestions g q :
  (∀ o, o ∈ (buildOptionsForQuestion allQuestions g q).1 → correct o = false →
        text o ≠ correctAnswer q ∧
        (text o ∈ dummyTexts q ∨
         text o ∈ getGlobalDistractorPool allQuestions (__index q))) ∧
  (∀ t, t ∈ uniqueDummies q →
        mkOption t false ∈ (buildOptionsForQuestion allQuestions g q).1).
Proof.
  unfold buildOptionsForQuestion.
  destruct (optionsBeforeShuffle_texts allQuestions g q)
    as (ext & top & Hpre & _ & Hext & Htop).
  split.
  - intros o Ho Hwrong. rewrite (shuffleArray_Permutation _ _), Hpre in Ho.
    apply elem_of_cons in Ho as [->|Ho]; [done|].
    apply list_elem_of_fmap in Ho as (t & -> & Ht). cbn.
    apply elem_of_app in Ht as [Ht|Ht].
    + apply Hext in Ht. unfold uniqueDummies in Ht. set_solver.
    + apply (sublist_subseteq _ _ Htop) in Ht.
      rewrite (shuffleArray_Permutation _ _) in Ht.
      apply list_elem_of_filter in Ht as [Hfresh Ht]. set_solver.
  - intros t Ht. rewrite (shuffleArray_Permutation _ _), Hpre.
    right. apply list_elem_of_fmap. exists t. split; [done|].
    apply elem_of_app. left. by apply Hext.
Qed.

Lemma buildOptions_provenance_witness :
  mkOption "B" false ∈
    (buildOptionsForQuestion [Sample.repeating] Sample.zeros Sample.repeating).1.
Proof.
  apply (buildOptions_provenance [Sample.repeating] Sample.zeros Sample.repeating).
  apply (bool_decide_unpack _). vm_compute. exact I.
Defined.

(** X5. When the correct answers of the other records are pairwise
    distinct, no two options of the returned list carry the same text. *)
Theorem buildOptions_distinct_texts allQuestions g q :
  NoDup (getGlobalDistractorPool allQuestions (__index q)) →
  NoDup (text <$> (buildOptionsForQuestion allQuestions g q).1).
Proof.
  intros Hpool. unfold buildOptionsForQuestion.
  destruct (optionsBeforeShuffle_texts allQuestions g q)
    as (ext & top & Hpre & Hnd & Hext & Htop).
  rewrite (shuffleArray_Permutation _ _), Hpre. cbn [fmap list_fmap].
  rewrite <- list_fmap_compose.
  replace (text ∘ (λ t, mkOption t false)) with (@id string) by done.
  rewrite list_fmap_id.
  assert (NoDup top ∧ ∀ t, t ∈ top →
            t ∉ ({[correctAnswer q]} ∪ dummyTexts q : gset string)) as [Htopnd Hfresh].
  { split.
    - eapply sublist_NoDup; [|exact Htop].
      rewrite (shuffleArray_Permutation _ _). by apply NoDup_filter.
    - intros t Ht. apply (sublist_subseteq _ _ Htop) in Ht.
      rewrite (shuffleArray_Permutation _ _) in Ht.
      by apply list_elem_of_filter in Ht as [? _]. }
  constructor.
  - rewrite elem_of_app. intros [Hc|Hc].
    + apply Hext in Hc. unfold uniqueDummies in Hc. set_solver.
    + apply Hfresh in Hc. set_solver.
  - apply NoDup_app. split; [done|]. split; [|done].
    intros t Ht Ht'. apply Hext in Ht. apply Hfresh in Ht'.
    unfold uniqueDummies in Ht. set_solver.
Qed.

Lemma buildOptions_distinct_texts_witness :
  NoDup (text <$> (buildOptionsForQuestion Sample.store3 Sample.counting
                     (Sample.ask "Net" "A" None 0)).1).
Proof.
  apply (buildOptions_distinct_texts Sample.store3 Sample.counting
           (Sample.ask "Net" "A" None 0)).
  apply (bool_decide_unpack _). vm_compute. exact I.
Defined.

(** ** The domain selection *)

(** X6. [toggleDomain] flips the membership of its domain in the selection
    and of no other; it touches no other variable, and toggling the same
    domain twice restores the state. *)
Theorem toggleDomain_flip d s :
  (d ∈ selectedDomains (toggleDomain d s) ↔ d ∉ selectedDomains s) ∧
  (∀ d', d' ≠ d →
     (d' ∈ selectedDomains (toggleDomain d s) ↔ d' ∈ selectedDomains s)) ∧
  toggleDomain d (toggleDomain d s) = s.
Proof.
  split; [|split].
  - unfold toggleDomain. case_decide; cbn; set_solver.
  - intros d' Hne. unfold toggleDomain. case_decide; cbn; set_solver.
  - destruct s as [l e a ds sel m q st i o stt msg slot tm nid t].
    unfold toggleDomain. cbn.
    destruct (decide (d ∈ sel)) as [Hin|Hout]; cbn.
    + rewrite decide_False by set_solver. unfold set_selectedDomains. cbn.
      f_equal. apply set_eq. intros x. rewrite elem_of_union, elem_of_difference,
        elem_of_singleton. destruct (decide (x = d)) as [->|?]; tauto.
    + rewrite decide_True by set_solver. unfold set_selectedDomains. cbn.
      f_equal. set_solver.
Qed.

Lemma toggleDomain_flip_witness :
  "Net" ∈ selectedDomains (toggleDomain "Sql" Sample.page3).
Proof.
  destruct (toggleDomain_flip "Sql" Sample.page3) as (_ & Hother & _).
  apply (Hother "Net"); [discriminate|].
  apply (bool_decide_unpack _). vm_compute. exact I.
Defined.

Lemma candidates_from_ext idx qs ds ds' :
  (∀ d, d ∈ ds ↔ d ∈ ds') →
  candidates_from idx qs ds = candidates_from idx qs ds'.
Proof.
  intros Hext. revert idx. induction qs as [|q qs IH]; intros idx; [done|].
  cbn. rewrite (IH (S idx)).
  destruct (decide (domain_or_general q ∈ ds)) as [Hin|Hout].
  - by rewrite decide_True by by apply Hext.
  - by rewrite decide_False by by rewrite <- Hext.
Qed.

(** X7. On a non-empty store with nothing selected, [startSession] does
    exactly what it does with every listed domain selected. *)
Theorem startSession_empty_selection g s :
  allQuestions s ≠ [] → selectedDomains s = ∅ →
  startSession g s
    = startSession g (set_selectedDomains (list_to_set (domains s)) s).
Proof.
  intros Hstore Hsel.
  destruct s as [l e a ds sel m q st i o stt msg slot tm nid t].
  cbn in Hsel, Hstore. subst sel.
  assert (∀ d, d ∈ ds ↔ d ∈ elements (list_to_set ds : gset string)) as Hext.
  { intros d. by rewrite elem_of_elements, elem_of_list_to_set. }
  unfold startSession, clearAutoAdvanceTimer.
  destruct slot as [id|]; page_simpl.
  all: destruct (decide (length a = 0)) as [Hz|_];
    [by apply nil_length_inv in Hz|].
  all: rewrite elements_empty; cbn [length];
    rewrite !(decide_True (P := 0 = 0)) by done.
  all: page_simpl.
  all: destruct (decide (length (elements (list_to_set ds : gset string)) = 0)).
  all: page_simpl; try done.
  all: rewrite <- (candidates_from_ext 0 a ds _ Hext); reflexivity.
Qed.

Lemma startSession_empty_selection_witness :
  startSession Sample.counting (set_selectedDomains ∅ Sample.page3)
    = startSession Sample.counting
        (set_selectedDomains
           (list_to_set (domains (set_selectedDomains ∅ Sample.page3)))
           (set_selectedDomains ∅ Sample.page3)).
Proof.
  apply (startSession_empty_selection Sample.counting
           (set_selectedDomains ∅ Sample.page3)).
  - discriminate.
  - reflexivity.
Defined.

(** ** Starting a session *)

(** The state [startSession] hands to [prepareCurrentQuestion]. *)
Lemma startSession_prepared g s :
  allQuestions s ≠ [] → matchingCandidates s ≠ [] →
  ∃ s3,
    startSession g s
      = prepareCurrentQuestion (shuffleArray g (matchingCandidates s)).2 s3 ∧
    sessionQuestions s3 =
      (if (minQuestions s <? Z.of_nat (length (matchingCandidates s)))%Z
       then slice0 (shuffleArray g (matchingCandidates s)).1 (minQuestions s)
       else (shuffleArray g (matchingCandidates s)).1) ∧
    currentIndex s3 = 0 ∧ sessionStarted s3 = true ∧
    allQuestions s3 = allQuestions s ∧ autoAdvanceTimeout s3 = None ∧
    status s3 = status s.
Proof.
  intros Hstore Hcands.
  destruct (startSession_cases g s)
    as [[? _]|[(_ & ? & _)
              |(_ & _ & s2 & queue & Heq & Hqueue & Ha & _ & _ & Hst & _ & Hslot & _)]];
    [done..|].
  eexists. split; [exact Heq|]. page_simpl. by rewrite <- Hqueue.
Qed.

Lemma startSession_queue_members g s r :
  allQuestions s ≠ [] → matchingCandidates s ≠ [] →
  r ∈ sessionQuestions (state_of (startSession g s)) →
  r ∈ matchingCandidates s.
Proof.
  intros Hstore Hcands Hr.
  destruct (startSession_prepared g s Hstore Hcands) as (s3 & Heq & Hq & _).
  rewrite Heq in Hr.
  destruct (prepareCurrentQuestion_frame
              (shuffleArray g (matchingCandidates s)).2 s3) as (Hq' & _).
  rewrite Hq', Hq in Hr.
  rewrite <- (shuffleArray_Permutation g (matchingCandidates s)).
  case_match; [|done].
  unfold slice0 in Hr. by apply subseteq_take in Hr.
Qed.

(** X8. When [startSession] finds candidates, it marks the session
    started at position 0 with the timer slot empty, and every entry of the
    new queue is a record of the store whose domain (or "General" when it
    has none) is one of the active domains. *)
Theorem startSession_queue_domains g s :
  allQuestions s ≠ [] → matchingCandidates s ≠ [] →
  sessionStarted (state_of (startSession g s)) = true ∧
  currentIndex (state_of (startSession g s)) = 0 ∧
  autoAdvanceTimeout (state_of (startSession g s)) = None ∧
  ∀ r, r ∈ sessionQuestions (state_of (startSession g s)) →
       ∃ a q, r = Ref a ∧ allQuestions s !! a = Some q ∧
              domain_or_general q ∈ activeDomainsOf s.
Proof.
  intros Hstore Hcands.
  destruct (startSession_prepared g s Hstore Hcands)
    as (s3 & Heq & _ & Hi & Hst & _ & Hslot & _).
  destruct (prepareCurrentQuestion_frame
              (shuffleArray g (matchingCandidates s)).2 s3)
    as (_ & Hi' & Hst' & _ & _ & _ & _ & Hslot' & _).
  rewrite <- Heq in Hi', Hst', Hslot'.
  rewrite Hi', Hst', Hslot'. do 3 (split; [done|]).
  intros r Hr.
  apply (startSession_queue_members g s r Hstore Hcands) in Hr.
  apply candidates_from_bounds in Hr as (a & q & -> & _ & Hq & Hd).
  rewrite Nat.sub_0_r in Hq. eauto.
Qed.

Lemma startSession_queue_domains_witness :
  sessionStarted (state_of (startSession Sample.counting Sample.page3)) = true.
Proof.
  assert (allQuestions Sample.page3 ≠ []) as Hstore by discriminate.
  assert (matchingCandidates Sample.page3 ≠ []) as Hcands
    by (vm_compute; discriminate).
  destruct (startSession_queue_domains Sample.counting Sample.page3 Hstore Hcands)
    as (Hst & _).
  exact Hst.
Defined.

(** X9. When [startSession] finds candidates, it throws exactly when the
    queue it has stored is empty, which a [minQuestions] of at least 1
    excludes; when it returns, the status is idle, its message is empty and
    the options on display are those of the first question of the queue. *)
Theorem startSession_returns g s :
  allQuestions s ≠ [] → matchingCandidates s ≠ [] →
  (returns (startSession g s) = true ↔
   sessionQuestions (state_of (startSession g s)) ≠ []) ∧
  ((1 ≤ minQuestions s)%Z → returns (startSession g s) = true) ∧
  (returns (startSession g s) = true →
   status (state_of (startSession g s)) = Idle ∧
   statusMessage (state_of (startSession g s)) = "" ∧
   ∃ q, deref (allQuestions s)
          (queue_at (state_of (startSession g s)) 0) = Some q ∧
        currentOptions (state_of (startSession g s)) =
          (buildOptionsForQuestion (allQuestions s)
             (shuffleArray g (matchingCandidates s)).2 q).1).
Proof.
  intros Hstore Hcands.
  pose proof (startSession_queue_members g s) as Hmem.
  pose proof (startSession_queue_length g s Hstore Hcands) as Hlen.
  destruct (startSession_prepared g s Hstore Hcands)
    as (s3 & Heq & _ & Hi & _ & Ha & _).
  rewrite Heq in *.
  destruct (prepareCurrentQuestion_frame
              (shuffleArray g (matchingCandidates s)).2 s3) as (Hq' & _).
  pose proof (prepareCurrentQuestion_returns
                (shuffleArray g (matchingCandidates s)).2 s3) as Hret.
  rewrite Hi, Ha in Hret. unfold queue_at in *. rewrite Hq' in *.
  assert (returns (prepareCurrentQuestion
                     (shuffleArray g (matchingCandidates s)).2 s3) = true ↔
          sessionQuestions s3 ≠ []) as Hiff.
  { rewrite Hret. destruct (sessionQuestions s3) as [|r rest] eqn:Hqueue.
    - cbn. split; [by intros [? ?]|done].
    - split; [done|]. intros _. cbn.
      destruct (matchingCandidates_in_store s r) as (a & -> & Hlt).
      { apply Hmem; [done..|]. left. }
      cbn. by apply lookup_lt_is_Some_2. }
  split; [done|]. split.
  - intros Hmin. apply Hiff. specialize (Hlen Hmin).
    destruct (sessionQuestions s3); [cbn in Hlen; lia|done].
  - intros Hok. unfold prepareCurrentQuestion in *.
    unfold queue_at in *. rewrite Hi, Ha in *.
    destruct (deref (allQuestions s)
                (default Undefined (sessionQuestions s3 !! 0))) as [q|] eqn:Hq;
      [|done].
    page_simpl. do 2 (split; [done|]). by exists q.
Qed.

Lemma startSession_returns_witness :
  returns (startSession Sample.counting Sample.page3) = true.
Proof.
  assert (allQuestions Sample.page3 ≠ []) as Hstore by discriminate.
  assert (matchingCandidates Sample.page3 ≠ []) as Hcands
    by (vm_compute; discriminate).
  destruct (startSession_returns Sample.counting Sample.page3 Hstore Hcands)
    as (_ & Hmin & _).
  apply Hmin. vm_compute. discriminate.
Defined.

(** X10. [startSession] builds the session from the store and the
    configuration alone: from two states that agree on the store, the
    domain list, the selection and [minQuestions] it stores the same queue
    at the same position and returns or throws alike; when it returns, the
    options, the status and its message agree as well. *)
Theorem startSession_rebuilds g s t :
  allQuestions s = allQuestions t → domains s = domains t →
  selectedDomains s = selectedDomains t → minQuestions s = minQuestions t →
  allQuestions s ≠ [] → matchingCandidates s ≠ [] →
  sessionQuestions (state_of (startSession g s))
    = sessionQuestions (state_of (startSession g t)) ∧
  currentIndex (state_of (startSession g s))
    = currentIndex (state_of (startSession g t)) ∧
  sessionStarted (state_of (startSession g s))
    = sessionStarted (state_of (startSession g t)) ∧
  returns (startSession g s) = returns (startSession g t) ∧
  (returns (startSession g s) = true →
   currentOptions (state_of (startSession g s))
     = currentOptions (state_of (startSession g t)) ∧
   status (state_of (startSession g s)) = status (state_of (startSession g t)) ∧
   statusMessage (state_of (startSession g s))
     = statusMessage (state_of (startSession g t))).
Proof.
  intros Ha Hd Hsel Hmin Hstore Hcands.
  assert (matchingCandidates t = matchingCandidates s) as Hsame.
  { unfold matchingCandidates, activeDomainsOf. by rewrite Ha, Hd, Hsel. }
  assert (allQuestions t ≠ []) as Hstore' by (by rewrite <- Ha).
  assert (matchingCandidates t ≠ []) as Hcands' by (by rewrite Hsame).
  destruct (startSession_prepared g s Hstore Hcands)
    as (s3 & -> & Hq & Hi & Hst & Ha3 & _).
  destruct (startSession_prepared g t Hstore' Hcands')
    as (t3 & -> & Hq' & Hi' & Hst' & Ha3' & _).
  rewrite Hsame, <- Hmin, <- Hq in Hq'.
  unfold prepareCurrentQuestion, queue_at.
  rewrite Hi, Hi', Ha3, Ha3', Hq', <- Ha.
  destruct (deref (allQuestions s)
              (default Undefined (sessionQuestions s3 !! 0))) as [q|];
    page_simpl; rewrite ?Hq', ?Hi, ?Hi', ?Hst, ?Hst', ?Hsame;
    repeat split; done.
Qed.

Lemma startSession_rebuilds_witness :
  sessionQuestions (state_of (startSession Sample.counting Sample.page3))
    = sessionQuestions (state_of (startSession Sample.counting Sample.session3)).
Proof.
  assert (allQuestions Sample.page3 ≠ []) as Hstore by discriminate.
  assert (matchingCandidates Sample.page3 ≠ []) as Hcands
    by (vm_compute; discriminate).
  assert (allQuestions Sample.page3 = allQuestions Sample.session3) as Ha
    by (vm_compute; reflexivity).
  assert (domains Sample.page3 = domains Sample.session3) as Hd
    by (vm_compute; reflexivity).
  assert (selectedDomains Sample.page3 = selectedDomains Sample.session3) as Hsel
    by (vm_compute; reflexivity).
  assert (minQuestions Sample.page3 = minQuestions Sample.session3) as Hmin
    by (vm_compute; reflexivity).
  destruct (startSession_rebuilds Sample.counting Sample.page3 Sample.session3
              Ha Hd Hsel Hmin Hstore Hcands) as (Hq & _).
  exact Hq.
Defined.

(** ** Mounting the page *)

Ltac mount_simpl :=
  cbn [loading error allQuestions domains selectedDomains minQuestions
       sessionQuestions sessionStarted currentIndex currentOptions status
       statusMessage autoAdvanceTimeout timers nextTimerId now
       set_loading set_allQuestions set_domains
       set_error set_selectedDomains set_minQuestions set_sessionQuestions
       set_sessionStarted set_currentIndex set_currentOptions set_status
       set_statusMessage set_autoAdvanceTimeout set_timers set_nextTimerId
       set_now state_of returns] in *.

Lemma attachIndices_length idx data :
  length (attachIndices idx data) = length data.
Proof.
  revert idx. induction data as [|q data IH]; intros idx; [done|].
  cbn. by rewrite IH.
Qed.

Lemma attachIndices_domain idx data q :
  q ∈ attachIndices idx data →
  ∃ q0, q0 ∈ data ∧ domain_or_general q = domain_or_general q0.
Proof.
  intros [i Hq]%list_elem_of_lookup_1.
  destruct (attachIndices_lookup _ _ _ _ Hq) as (_ & q0 & Hq0 & _ & _ & Hd).
  exists q0. split; [by eapply list_elem_of_lookup_2|].
  unfold domain_or_general. by rewrite Hd.
Qed.

Lemma addDomain_fold (acc : list string) (qs : list Question) :
  NoDup acc →
  NoDup (foldl addDomain acc qs) ∧
  ∀ d, d ∈ foldl addDomain acc qs ↔
       d ∈ acc ∨ ∃ q, q ∈ qs ∧ domain_or_general q = d.
Proof.
  revert acc. induction qs as [|q qs IH]; intros acc Hacc; cbn.
  - split; [done|]. intros d. split; [by left|].
    intros [?|(q & Hq & _)]; [done|]. by apply elem_of_nil in Hq.
  - assert (NoDup (addDomain acc q)) as Hacc'.
    { unfold addDomain. case_decide; [done|].
      apply NoDup_app. split; [done|]. split; [|apply NoDup_singleton].
      intros x Hx ->%list_elem_of_singleton. done. }
    destruct (IH _ Hacc') as [Hnd Hmem]. split; [done|].
    intros d. rewrite Hmem. unfold addDomain.
    split.
    + intros [Hd|(q' & Hq' & Hd)].
      * case_decide; [by left|].
        apply elem_of_app in Hd as [?| ->%list_elem_of_singleton]; [by left|].
        right. exists q. split; [left|done].
      * right. exists q'. split; [by right|done].
    + intros [Hd|(q' & Hq' & Hd)].
      * left. case_decide; [done|]. apply elem_of_app. by left.
      * apply elem_of_cons in Hq' as [->|Hq'].
        -- left. case_decide; [by subst|]. apply elem_of_app. right.
           subst. by apply list_elem_of_singleton.
        -- right. by exists q'.
Qed.

(** X11. After a successful load, whatever the state before: the page is
    no longer loading; the store has one record per record of the file, the
    one at position [i] carrying [__index = i] and the answers and domain
    of the file's record; the domain list holds each domain of the store
    once (with "General" for records without one) and nothing else; and
    every listed domain is selected. *)
Theorem onMount_loaded (sort : list string → list string) data s :
  (∀ l, sort l ≡ₚ l) →
  loading (onMount sort (Loaded data) s) = false ∧
  length (allQuestions (onMount sort (Loaded data) s)) = length data ∧
  (∀ i q, allQuestions (onMount sort (Loaded data) s) !! i = Some q →
          __index q = Some i ∧
          ∃ q0, data !! i = Some q0 ∧ correctAnswer q = correctAnswer q0 ∧
                dummyAnswers q = dummyAnswers q0 ∧ domain q = domain q0) ∧
  NoDup (domains (onMount sort (Loaded data) s)) ∧
  (∀ d, d ∈ domains (onMount sort (Loaded data) s) ↔
        ∃ q0, q0 ∈ data ∧ domain_or_general q0 = d) ∧
  domains_cover (onMount sort (Loaded data) s) ∧
  selectedDomains (onMount sort (Loaded data) s)
    = list_to_set (domains (onMount sort (Loaded data) s)).
Proof.
  intros Hsort. unfold onMount. cbv zeta. mount_simpl.
  destruct (addDomain_fold [] (attachIndices 0 data) (NoDup_nil_2))
    as [Hnd Hmem].
  fold (collectDomains (attachIndices 0 data)) in Hnd, Hmem.
  split; [done|]. split; [apply attachIndices_length|]. split.
  { intros i q Hq. apply (attachIndices_lookup 0 data i q Hq). }
  split; [by rewrite Hsort|]. split.
  { intros d. rewrite Hsort, Hmem. split.
    - intros [Hd|(q & Hq & Hd)]; [by apply elem_of_nil in Hd|].
      destruct (attachIndices_domain _ _ _ Hq) as (q0 & Hq0 & Heq).
      exists q0. split; [done|congruence].
    - intros (q0 & Hq0 & Hd). right.
      apply list_elem_of_lookup_1 in Hq0 as [i Hq0].
      assert (i < length (attachIndices 0 data)) as Hi.
      { rewrite attachIndices_length. by eapply lookup_lt_Some. }
      destruct (lookup_lt_is_Some_2 _ _ Hi) as [q Hq].
      exists q. split; [by eapply list_elem_of_lookup_2|].
      destruct (attachIndices_lookup _ _ _ _ Hq) as (_ & q0' & Hq0' & _ & _ & Hdom).
      simplify_eq. unfold domain_or_general. by rewrite Hdom. }
  split; [|done].
  unfold domains_cover. mount_simpl.
  split; [|done].
  intros d. rewrite Hsort, Hmem. split.
  - intros [Hd|?]; [by apply elem_of_nil in Hd|done].
  - by right.
Qed.

Lemma onMount_loaded_witness :
  length (allQuestions
            (onMount (merge_sort (λ a b, Is_true (String.leb a b)))
               (Loaded Sample.store3) declared)) = 3.
Proof.
  destruct (onMount_loaded (merge_sort (λ a b, Is_true (String.leb a b)))
              Sample.store3 declared) as (_ & Hlen & _).
  - intros l. apply merge_sort_Permutation.
  - exact Hlen.
Defined.

(** ** The handlers and the configuration *)

(** [startSession] past its first guard, with the cleared state named. *)
Lemma startSession_unfold g s :
  allQuestions s ≠ [] →
  ∃ s2,
    (s2 = clearAutoAdvanceTimer s ∨
     selectedDomains s = ∅ ∧
     s2 = set_selectedDomains (list_to_set (domains s)) (clearAutoAdvanceTimer s)) ∧
    (startSession g s = Normal (set_error (Some noCandidatesMessage) s2) ∨
     ∃ queue,
       startSession g s =
         prepareCurrentQuestion (shuffleArray g (matchingCandidates s)).2
           (set_sessionStarted true
              (set_currentIndex 0 (set_sessionQuestions queue s2)))).
Proof.
  intros Hstore.
  destruct (clearAutoAdvanceTimer_same s)
    as ((_ & _ & Ha & Hd & Hsd & Hm & _) & _).
  unfold startSession, matchingCandidates, activeDomainsOf.
  rewrite decide_False by (by intros ?%nil_length_inv).
  rewrite Hsd, Hd.
  destruct (decide (length (elements (selectedDomains s)) = 0)) as [Hnil|Hsome].
  - eexists. split.
    + right. split; [|done].
      apply nil_length_inv in Hnil. by apply elements_empty_inv in Hnil as ->%leibniz_equiv.
    + page_simpl. rewrite Ha, Hm. case_decide; [by left|right; by eexists].
  - eexists. split; [by left|].
    rewrite Ha, Hm. case_decide; [by left|right; by eexists].
Qed.

Lemma prepareCurrentQuestion_config g s :
  domains (state_of (prepareCurrentQuestion g s)) = domains s ∧
  selectedDomains (state_of (prepareCurrentQuestion g s)) = selectedDomains s ∧
  minQuestions (state_of (prepareCurrentQuestion g s)) = minQuestions s.
Proof. unfold prepareCurrentQuestion. by case_match. Qed.

(** No handler touches the store or the domain list, and the selection
    changes only by a toggle or by the fallback of [startSession]. *)
Lemma handle_config e s c :
  handle e s = Some c →
  loading (state_of c) = loading s ∧
  allQuestions (state_of c) = allQuestions s ∧
  domains (state_of c) = domains s ∧
  (selectedDomains (state_of c) = selectedDomains s ∨
   selectedDomains (state_of c) = list_to_set (domains s) ∨
   ∃ d, e = DomainToggle d ∧ state_of c = toggleDomain d s).
Proof.
  assert (∀ g s0,
            loading (state_of (nextQuestion g s0)) = loading s0 ∧
            allQuestions (state_of (nextQuestion g s0)) = allQuestions s0 ∧
            domains (state_of (nextQuestion g s0)) = domains s0 ∧
            selectedDomains (state_of (nextQuestion g s0)) = selectedDomains s0)
    as Hnext.
  { intros g s0.
    destruct (clearAutoAdvanceTimer_same s0)
      as ((Hl & _ & Ha & Hd & Hsd & _) & _).
    destruct (nextQuestion_cases g s0) as [[_ ->]|[(_ & _ & ->)|(_ & _ & ->)]];
      [done| |by page_simpl].
    set (s1 := set_currentIndex _ _).
    destruct (prepareCurrentQuestion_frame g s1) as (_ & _ & _ & -> & _ & -> & _).
    destruct (prepareCurrentQuestion_config g s1) as (-> & -> & _).
    subst s1. by page_simpl. }
  destruct e as [d|n|g|o|g|id g|dt]; cbn [handle]; intros Hc; simplify_eq;
    cbn [state_of].
  - split; [by unfold toggleDomain; case_decide|].
    split; [by unfold toggleDomain; case_decide|].
    split; [by unfold toggleDomain; case_decide|].
    right. right. by exists d.
  - repeat split; auto.
  - destruct (decide (allQuestions s = [])) as [Hnil|Hstore].
    { unfold startSession. rewrite decide_True by (by rewrite Hnil).
      cbn [state_of]. auto. }
    destruct (clearAutoAdvanceTimer_same s)
      as ((Hl & _ & Ha & Hd & Hsd & _) & _).
    destruct (startSession_unfold g s Hstore) as (s2 & Hs2 & [->|(queue & ->)]).
    + destruct Hs2 as [->|[_ ->]]; page_simpl; rewrite ?Hl, ?Ha, ?Hd, ?Hsd;
        repeat split; auto.
    + set (s3 := set_sessionStarted _ _).
      destruct (prepareCurrentQuestion_frame
                  (shuffleArray g (matchingCandidates s)).2 s3)
        as (_ & _ & _ & -> & _ & -> & _).
      destruct (prepareCurrentQuestion_config
                  (shuffleArray g (matchingCandidates s)).2 s3)
        as (-> & -> & _).
      subst s3.
      destruct Hs2 as [->|[_ ->]]; page_simpl; rewrite ?Hl, ?Ha, ?Hd, ?Hsd;
        repeat split; auto.
  - destruct (handleAnswerClick_session o s)
      as (_ & _ & _ & -> & -> & -> & -> & _). auto.
  - destruct (Hnext g s) as (-> & -> & -> & ->). auto.
  - unfold fireTimer in Hc. case_match; simplify_eq.
    destruct (Hnext g (set_timers (clearTimeout id (timers s)) s))
      as (-> & -> & -> & ->). auto.
  - repeat split; auto.
Qed.

(** X12. When the domain list is the list of the domains of the store and
    the selection is taken from it, a non-empty store always yields
    candidates, so [startSession] never reports the no-candidates
    condition: it leaves [error] as it is. *)
Theorem startSession_finds_candidates g s :
  domains_cover s →
  (allQuestions s ≠ [] → matchingCandidates s ≠ []) ∧
  error (state_of (startSession g s)) = error s.
Proof.
  intros [Hcover Hsel].
  assert (allQuestions s ≠ [] → matchingCandidates s ≠ []) as Hfound.
  { intros Hstore. unfold matchingCandidates, activeDomainsOf.
    assert (∀ d, d ∈ domains s →
              candidates_from 0 (allQuestions s) (domains s) ≠ [] ∧
              (d ∈ elements (selectedDomains s) →
               candidates_from 0 (allQuestions s) (elements (selectedDomains s)) ≠ []))
      as Hany.
    { intros d Hd. apply Hcover in Hd as (q & Hq & Hdq).
      apply list_elem_of_lookup_1 in Hq as [i Hq].
      split.
      - intros Hnil.
        pose proof (candidates_from_complete 0 _ (domains s) i q Hq) as Hin.
        rewrite Hnil in Hin. eapply elem_of_nil, Hin.
        apply Hcover. exists q. split; [by eapply list_elem_of_lookup_2|done].
      - intros Hd' Hnil.
        pose proof (candidates_from_complete 0 _
                      (elements (selectedDomains s)) i q Hq) as Hin.
        rewrite Hnil in Hin. eapply elem_of_nil, Hin. by rewrite Hdq. }
    case_decide as Hempty.
    - assert (∃ q0, q0 ∈ allQuestions s) as [q0 Hq0].
      { destruct (allQuestions s) as [|q0 qs]; [done|]. exists q0. left. }
      apply (Hany (domain_or_general q0)).
      apply Hcover. by exists q0.
    - assert (∃ d, d ∈ elements (selectedDomains s)) as [d Hd].
      { destruct (elements (selectedDomains s)) as [|d ds]; [done|].
        exists d. left. }
      apply (Hany d); [|done].
      apply elem_of_elements in Hd. apply Hsel in Hd.
      by apply elem_of_list_to_set in Hd. }
  split; [done|].
  destruct (startSession_cases g s)
    as [[_ ->]|[(Hstore & Hnone & _)
               |(_ & _ & s2 & queue & -> & _ & _ & He & _)]]; [done| |].
  - by apply Hfound in Hstore.
  - destruct (prepareCurrentQuestion_frame
                (shuffleArray g (matchingCandidates s)).2
                (set_sessionStarted true
                   (set_currentIndex 0 (set_sessionQuestions queue s2))))
      as (_ & _ & _ & _ & -> & _). by page_simpl.
Qed.

Lemma page3_domains_cover : domains_cover Sample.page3.
Proof.
  split; [|done].
  intros d. cbn. rewrite !elem_of_cons. split.
  - intros [->|[->|[->|Hd]]]; [| | |by apply elem_of_nil in Hd].
    + exists (Sample.ask "" "C" None 2). split; [|done]. do 2 right. left.
    + exists (Sample.ask "Net" "A" None 0). split; [left|done].
    + exists (Sample.ask "Sql" "B" None 1). split; [right; left|done].
  - intros (q & Hq & <-).
    unfold Sample.store3 in Hq. rewrite !elem_of_cons in Hq.
    destruct Hq as [->|[->|[->|Hq]]]; [| | |by apply elem_of_nil in Hq];
      vm_compute; auto.
Defined.

Lemma startSession_finds_candidates_witness :
  error (state_of (startSession Sample.counting Sample.page3))
    = error Sample.page3.
Proof.
  destruct (startSession_finds_candidates Sample.counting Sample.page3
              page3_domains_cover) as (_ & Herr).
  exact Herr.
Defined.

(** X13. That relation between the store, the domain list and the
    selection is kept by every handler, provided a toggled domain is one of
    the listed domains, as the check boxes of the markup are. *)
Theorem domains_cover_preserved e s c :
  domains_cover s → handle e s = Some c →
  (∀ d, e = DomainToggle d → d ∈ domains s) →
  domains_cover (state_of c).
Proof.
  intros [Hcover Hsel] Hc Hlisted.
  destruct (handle_config e s c Hc) as (_ & Ha & Hd & Hselection).
  unfold domains_cover. rewrite Ha, Hd. split; [done|].
  destruct Hselection as [-> | [-> | (d & -> & ->)]]; [done..|].
  specialize (Hlisted d eq_refl).
  unfold toggleDomain. case_decide; page_simpl; set_solver.
Qed.

Lemma domains_cover_preserved_witness :
  domains_cover (toggleDomain "Net" Sample.page3).
Proof.
  apply (domains_cover_preserved (DomainToggle "Net") Sample.page3
           (Normal (toggleDomain "Net" Sample.page3)) page3_domains_cover eq_refl).
  intros d [= <-]. cbn. set_solver.
Defined.

(** ** What is on display *)

Lemma clearAutoAdvanceTimer_message s :
  status (clearAutoAdvanceTimer s) = status s ∧
  statusMessage (clearAutoAdvanceTimer s) = statusMessage s ∧
  currentOptions (clearAutoAdvanceTimer s) = currentOptions s.
Proof. unfold clearAutoAdvanceTimer. by destruct (autoAdvanceTimeout s). Qed.

Lemma prepareCurrentQuestion_message g s :
  statusMessage s = message_of (status s) →
  statusMessage (state_of (prepareCurrentQuestion g s))
    = message_of (status (state_of (prepareCurrentQuestion g s))).
Proof. unfold prepareCurrentQuestion. by case_match. Qed.

Lemma handleAnswerClick_message option s :
  statusMessage s = message_of (status s) →
  statusMessage (handleAnswerClick option s)
    = message_of (status (handleAnswerClick option s)).
Proof.
  intros Hs. unfold handleAnswerClick.
  destruct (decide (status s ≠ Idle)); [done|].
  destruct (correct option).
  - unfold scheduleAutoAdvance. set (s1 := set_statusMessage _ _).
    destruct (clearAutoAdvanceTimer_message s1) as (Hst & Hmsg & _).
    page_simpl. by rewrite Hst, Hmsg.
  - page_simpl. by case_bool_decide.
Qed.

Lemma nextQuestion_message g s :
  statusMessage s = message_of (status s) →
  statusMessage (state_of (nextQuestion g s))
    = message_of (status (state_of (nextQuestion g s))).
Proof.
  intros Hs.
  destruct (clearAutoAdvanceTimer_message s) as (Hst & Hmsg & _).
  destruct (nextQuestion_cases g s) as [[_ ->]|[(_ & _ & ->)|(_ & _ & ->)]];
    [done| |done].
  apply prepareCurrentQuestion_message. page_simpl. by rewrite Hst, Hmsg.
Qed.

Lemma startSession_message g s :
  statusMessage s = message_of (status s) →
  statusMessage (state_of (startSession g s))
    = message_of (status (state_of (startSession g s))).
Proof.
  intros Hs.
  destruct (decide (allQuestions s = [])) as [Hnil|Hstore].
  { unfold startSession. by rewrite decide_True by (by rewrite Hnil). }
  destruct (clearAutoAdvanceTimer_message s) as (Hst & Hmsg & _).
  destruct (startSession_unfold g s Hstore) as (s2 & Hs2 & [->|(queue & ->)]).
  - destruct Hs2 as [->|[_ ->]]; page_simpl; by rewrite Hst, Hmsg.
  - apply prepareCurrentQuestion_message.
    destruct Hs2 as [->|[_ ->]]; page_simpl; by rewrite Hst, Hmsg.
Qed.

(** X14. In every reachable state the status message is the one that goes
    with the status: empty while idle, "Correct!" after a correct answer,
    "Incorrect." after an incorrect one. *)
Theorem status_message_reachable s :
  reachable s → statusMessage s = message_of (status s).
Proof.
  induction 1 as [s (_ & _ & _ & _ & _ & Hst & Hmsg & _)|s e c _ IH Hc].
  - by rewrite Hst, Hmsg.
  - destruct e as [d|n|g|o|g|id g|dt]; cbn [handle] in Hc; simplify_eq;
      cbn [state_of].
    + unfold toggleDomain. by case_decide.
    + done.
    + by apply startSession_message.
    + by apply handleAnswerClick_message.
    + by apply nextQuestion_message.
    + unfold fireTimer in Hc. case_match; simplify_eq.
      by apply nextQuestion_message.
    + done.
Qed.

Lemma status_message_reachable_witness :
  statusMessage (handleAnswerClick Sample.wrong Sample.session3) = "Incorrect.".
Proof.
  rewrite (status_message_reachable
             (handleAnswerClick Sample.wrong Sample.session3)).
  - vm_compute. reflexivity.
  - exact (reachable_handle Sample.session3 (AnswerClick Sample.wrong)
             (Normal (handleAnswerClick Sample.wrong Sample.session3))
             session3_reachable eq_refl).
Defined.

Lemma prepareCurrentQuestion_options g s :
  options_of_current (state_of (prepareCurrentQuestion g s)).
Proof.
  unfold options_of_current, prepareCurrentQuestion.
  destruct (deref (allQuestions s) (queue_at s (currentIndex s))) as [q|] eqn:Hq;
    cbn [state_of].
  - intros _ q' Hq'. unfold queue_at in *. page_simpl.
    rewrite Hq in Hq'. simplify_eq. by exists g.
  - intros _ q' Hq'. congruence.
Qed.

Lemma queue_at_after_answer option s :
  queue_at (handleAnswerClick option s) (currentIndex s)
    = queue_at s (currentIndex s).
Proof.
  unfold queue_at at 1.
  destruct (handleAnswerClick_session option s) as (_ & _ & Hq & _).
  destruct Hq as [->|(_ & _ & _ & ->)]; [done|].
  destruct (decide (currentIndex s < length (sessionQuestions s))) as [Hlt|Hge].
  - by rewrite lookup_app_l.
  - unfold queue_at. rewrite (lookup_ge_None_2 (sessionQuestions s)) by lia.
    cbn. rewrite lookup_app_r by lia.
    by destruct (currentIndex s - length (sessionQuestions s)) as [|[|?]].
Qed.

(** X15. In every reachable state with a session started on a defined
    question, the options on display are the ones [buildOptionsForQuestion]
    built for that very question. *)
Theorem options_of_current_reachable s :
  reachable s → options_of_current s.
Proof.
  assert (∀ g s0, options_of_current s0 →
                  options_of_current (state_of (nextQuestion g s0))) as Hnext.
  { intros g s0 Hs0.
    destruct (nextQuestion_cases g s0) as [[_ ->]|[(_ & _ & ->)|(_ & _ & ->)]];
      [done|apply prepareCurrentQuestion_options|].
    unfold options_of_current. by page_simpl. }
  induction 1 as [s (_ & _ & Hst & _)|s e c _ IH Hc].
  - unfold options_of_current. by rewrite Hst.
  - destruct e as [d|n|g|o|g|id g|dt]; cbn [handle] in Hc; simplify_eq;
      cbn [state_of].
    + unfold toggleDomain. by case_decide.
    + done.
    + destruct (startSession_cases g s)
        as [[_ ->]|[(_ & _ & s2 & -> & Hq & Hi & Hst & Ho & _ & _ & Ha & _)
                   |(_ & _ & s2 & queue & -> & _)]].
      * done.
      * unfold options_of_current, queue_at in *. page_simpl.
        by rewrite Hq, Hi, Hst, Ho, Ha.
      * apply prepareCurrentQuestion_options.
    + unfold options_of_current in *.
      pose proof (queue_at_after_answer o s) as Hcur.
      destruct (handleAnswerClick_session o s)
        as (Hi & Ho & _ & _ & Ha & _ & _ & _ & Hst & _).
      rewrite Hi, Ho, Ha, Hst, Hcur. done.
    + by apply Hnext.
    + unfold fireTimer in Hc. case_match; simplify_eq. by apply Hnext.
    + done.
Qed.

Lemma options_of_current_reachable_witness :
  ∃ g, currentOptions Sample.session3
       = (buildOptionsForQuestion Sample.store3 g (Sample.ask "" "C" None 2)).1.
Proof.
  apply (options_of_current_reachable Sample.session3 session3_reachable).
  - vm_compute. reflexivity.
  - vm_compute. reflexivity.
Defined.

(** ** The queue over a whole session *)

Lemma nextQuestion_queue g s :
  sessionQuestions (state_of (nextQuestion g s)) = sessionQuestions s.
Proof.
  destruct (clearAutoAdvanceTimer_same s)
    as ((_ & _ & _ & _ & _ & _ & Hq & _) & _).
  destruct (nextQuestion_cases g s) as [[_ ->]|[(_ & _ & ->)|(_ & _ & ->)]];
    [done| |by page_simpl].
  destruct (prepareCurrentQuestion_frame g
              (set_currentIndex (currentIndex s + 1) (clearAutoAdvanceTimer s)))
    as (-> & _).
  by page_simpl.
Qed.

Lemma nextQuestion_forward g s :
  currentIndex s ≤ currentIndex (state_of (nextQuestion g s)).
Proof.
  destruct (clearAutoAdvanceTimer_same s)
    as ((_ & _ & _ & _ & _ & _ & _ & _ & Hi & _) & _).
  destruct (nextQuestion_cases g s) as [[_ ->]|[(_ & _ & ->)|(_ & _ & ->)]];
    [done| |page_simpl; lia].
  destruct (prepareCurrentQuestion_frame g
              (set_currentIndex (currentIndex s + 1) (clearAutoAdvanceTimer s)))
    as (_ & -> & _).
  page_simpl. lia.
Qed.

Lemma handle_queue e s c :
  handle e s = Some c → (∀ g, e ≠ StartClick g) →
  sessionQuestions s `prefix_of` sessionQuestions (state_of c) ∧
  length (sessionQuestions (state_of c))
    ≤ length (sessionQuestions s) + (if is_miss e then 1 else 0) ∧
  currentIndex s ≤ currentIndex (state_of c).
Proof.
  destruct e as [d|n|g|o|g|id g|dt]; cbn [handle is_miss]; intros Hc Hstart;
    simplify_eq; cbn [state_of].
  - unfold toggleDomain. case_decide; page_simpl; (split; [done|lia]).
  - page_simpl. split; [done|lia].
  - by destruct (Hstart g).
  - destruct (handleAnswerClick_session o s) as (-> & _ & Hq & _).
    destruct Hq as [->|(-> & _ & _ & ->)].
    + split; [done|]. split; [|done]. destruct (negb (correct o)); lia.
    + split; [by apply prefix_app_r|]. rewrite length_app. cbn. lia.
  - rewrite nextQuestion_queue. split; [done|]. split; [lia|].
    apply nextQuestion_forward.
  - unfold fireTimer in Hc. case_match; simplify_eq.
    rewrite nextQuestion_queue. page_simpl. split; [done|]. split; [lia|].
    apply (nextQuestion_forward g (set_timers (clearTimeout id (timers s)) s)).
  - page_simpl. split; [done|lia].
Qed.

(** X16. Over any sequence of events without a click on the start button,
    the entries already in the queue stay where they are, the queue grows
    by at most one entry per incorrect answer click, and the position never
    moves back. *)
Theorem run_queue_growth es s s' :
  run es s = Some s' → no_restart es →
  sessionQuestions s `prefix_of` sessionQuestions s' ∧
  length (sessionQuestions s') ≤ length (sessionQuestions s) + misses es ∧
  currentIndex s ≤ currentIndex s'.
Proof.
  revert s. induction es as [|e es IH]; intros s Hrun Hnone; cbn in Hrun.
  - simplify_eq. split; [done|]. unfold misses. cbn. lia.
  - destruct (handle e s) as [c|] eqn:Hc; [|done].
    apply Forall_cons in Hnone as [He Hnone].
    destruct (handle_queue e s c Hc) as (Hpre & Hlen & Hpos).
    { intros g ->. done. }
    destruct (IH _ Hrun Hnone) as (Hpre' & Hlen' & Hpos').
    split; [by etransitivity|]. split; [|lia].
    unfold misses in *. destruct (is_miss e) eqn:Hmiss.
    + rewrite filter_cons_True by done. cbn. lia.
    + rewrite filter_cons_False by congruence. lia.
Qed.

Lemma run_queue_growth_witness :
  length (sessionQuestions (handleAnswerClick Sample.wrong Sample.session3))
    ≤ length (sessionQuestions Sample.session3)
      + misses [AnswerClick Sample.wrong].
Proof.
  apply (run_queue_growth [AnswerClick Sample.wrong] Sample.session3
           (handleAnswerClick Sample.wrong Sample.session3) eq_refl).
  repeat constructor.
Defined.

(** X17. After an incorrect answer to the question at a position inside
    the queue, that question is waiting at a later position, so the next
    click on "Next Question" moves on by one and does not end the
    session. *)
Theorem miss_comes_back option g s :
  sessionStarted s = true → currentIndex s < length (sessionQuestions s) →
  status s = Idle → correct option = false →
  queue_at s (currentIndex s)
    ∈ drop (currentIndex s + 1) (sessionQuestions (handleAnswerClick option s)) ∧
  sessionStarted (state_of (nextQuestion g (handleAnswerClick option s))) = true ∧
  currentIndex (state_of (nextQuestion g (handleAnswerClick option s)))
    = currentIndex s + 1.
Proof.
  intros Hst Hlt Hidle Hwrong.
  pose proof (handleAnswerClick_miss option s Hidle Hwrong) as Hq.
  destruct (handleAnswerClick_session option s)
    as (Hi & _ & _ & _ & _ & _ & _ & _ & Hst' & _).
  assert (queue_at s (currentIndex s)
            ∈ drop (currentIndex s + 1)
                (sessionQuestions (handleAnswerClick option s))) as Hback.
  { rewrite Hq. case_bool_decide; [done|].
    rewrite drop_app_le by lia. apply elem_of_app. right. left. }
  split; [done|].
  assert (currentIndex s + 1
            < length (sessionQuestions (handleAnswerClick option s))) as Hmore.
  { apply list_elem_of_lookup_1 in Hback as [i Hback].
    rewrite lookup_drop in Hback. apply lookup_lt_Some in Hback. lia. }
  set (s1 := handleAnswerClick option s) in *.
  destruct (clearAutoAdvanceTimer_same s1)
    as ((_ & _ & _ & _ & _ & _ & _ & Hst1 & Hi1 & _) & _).
  destruct (nextQuestion_cases g s1) as [[? _]|[(_ & _ & ->)|(_ & ? & _)]];
    [congruence| |lia].
  destruct (prepareCurrentQuestion_frame g
              (set_currentIndex (currentIndex s1 + 1) (clearAutoAdvanceTimer s1)))
    as (_ & -> & -> & _).
  page_simpl. by rewrite Hst1, Hst', Hi.
Qed.

Lemma miss_comes_back_witness :
  sessionStarted
    (state_of (nextQuestion Sample.zeros
                 (handleAnswerClick Sample.wrong Sample.session3))) = true.
Proof.
  assert (sessionStarted Sample.session3 = true) as Hst
    by (vm_compute; reflexivity).
  assert (currentIndex Sample.session3 < length (sessionQuestions Sample.session3))
    as Hlt by (vm_compute; lia).
  assert (status Sample.session3 = Idle) as Hidle by (vm_compute; reflexivity).
  destruct (miss_comes_back Sample.wrong Sample.zeros Sample.session3
              Hst Hlt Hidle eq_refl) as (_ & Hstarted & _).
  exact Hstarted.
Defined.

Lemma nextQuestion_moves g s :
  active s → currentIndex s + 1 < length (sessionQuestions s) →
  ∃ s1, nextQuestion g s = Normal s1 ∧ active s1 ∧
        currentIndex s1 = currentIndex s + 1 ∧
        sessionQuestions s1 = sessionQuestions s.
Proof.
  intros Hact Hlt.
  destruct (nextQuestion_active g s Hact) as (s1 & Heq & Hsettled).
  pose proof (nextQuestion_queue g s) as Hq. rewrite Heq in Hq.
  exists s1. split; [done|].
  destruct (clearAutoAdvanceTimer_same s)
    as ((_ & _ & _ & _ & _ & _ & _ & Hst & Hi & _) & _).
  destruct Hact as (Hstarted & _ & _).
  destruct (nextQuestion_cases g s) as [[? _]|[(_ & _ & Hn)|(_ & ? & _)]];
    [congruence| |lia].
  destruct (prepareCurrentQuestion_frame g
              (set_currentIndex (currentIndex s + 1) (clearAutoAdvanceTimer s)))
    as (_ & Hi' & Hst' & _).
  rewrite <- Hn, Heq in Hi', Hst'. cbn [state_of] in *. page_simpl.
  rewrite Hst, Hstarted in Hst'.
  split; [|done]. destruct Hsettled as [?|?]; [congruence|done].
Qed.

(** X18. From a session in progress on a well-formed queue, clicking
    "Next Question" again and again without answering walks through the
    queue one entry per click, and every one of these calls returns (none
    throws): after fewer clicks than entries remain the session is in
    progress that many positions further, and after exactly as many clicks
    as entries remain it has ended. *)
Theorem skip_through gs s :
  active s →
  length gs ≤ length (sessionQuestions s) - currentIndex s →
  ∃ s', runReturning (NextClick <$> gs) s = Some s' ∧
        sessionQuestions s' = sessionQuestions s ∧
        (length gs < length (sessionQuestions s) - currentIndex s →
         active s' ∧ currentIndex s' = currentIndex s + length gs) ∧
        (length gs = length (sessionQuestions s) - currentIndex s →
         sessionStarted s' = false).
Proof.
  revert s. induction gs as [|g gs IH]; intros s Hact Hlen.
  - exists s. cbn. split; [done|]. split; [done|]. split.
    + intros _. split; [done|lia].
    + destruct Hact as (_ & ? & _). lia.
  - cbn [fmap list_fmap runReturning handle length] in *.
    destruct (decide (currentIndex s + 1 < length (sessionQuestions s)))
      as [Hlt|Hlast].
    + destruct (nextQuestion_moves g s Hact Hlt) as (s1 & -> & Hact1 & Hi & Hq).
      destruct (IH s1 Hact1) as (s' & Hrun & Hq' & Hless & Hend).
      { rewrite Hq, Hi. lia. }
      exists s'. rewrite Hq, Hi in *. split; [done|]. split; [done|]. split.
      * intros ?. destruct Hless as [? ->]; [lia|]. split; [done|lia].
      * intros ?. apply Hend. lia.
    + destruct Hact as (Hst & Hin & Hstore).
      destruct gs as [|? ?]; [|cbn in Hlen; lia].
      destruct (nextQuestion_cases g s) as [[? _]|[(_ & ? & _)|(_ & _ & ->)]];
        [congruence|lia|].
      cbn [fmap list_fmap runReturning]. eexists. split; [done|].
      destruct (clearAutoAdvanceTimer_same s)
        as ((_ & _ & _ & _ & _ & _ & Hq & _) & _).
      page_simpl. split; [done|]. split; [cbn; lia|done].
Qed.

Lemma skip_through_witness :
  ∃ s', runReturning (NextClick <$> [Sample.zeros; Sample.zeros; Sample.zeros])
          Sample.session3 = Some s' ∧
        sessionStarted s' = false.
Proof.
  assert (length [Sample.zeros; Sample.zeros; Sample.zeros]
            ≤ length (sessionQuestions Sample.session3)
              - currentIndex Sample.session3) as Hlen by (vm_compute; lia).
  destruct (skip_through [Sample.zeros; Sample.zeros; Sample.zeros]
              Sample.session3 session3_active Hlen)
    as (s' & Hrun & _ & _ & Hend).
  exists s'. split; [exact Hrun|]. apply Hend. vm_compute. reflexivity.
Defined.

(** ** The two versions of the page *)

(** X19. While the timer slot is empty, the earlier [startSession] and
    [nextQuestion] do exactly what the later ones do; and in any state the
    two [handleAnswerClick] leave the same status and the same message. *)
Theorem earlier_agrees g option s :
  (autoAdvanceTimeout s = None →
   Earlier.startSession g s = startSession g s ∧
   Earlier.nextQuestion g s = nextQuestion g s) ∧
  status (Earlier.handleAnswerClick option s)
    = status (handleAnswerClick option s) ∧
  statusMessage (Earlier.handleAnswerClick option s)
    = statusMessage (handleAnswerClick option s).
Proof.
  split.
  - intros Hslot. split.
    + unfold Earlier.startSession, startSession.
      by rewrite (clearAutoAdvanceTimer_idle s Hslot).
    + unfold Earlier.nextQuestion, nextQuestion.
      by rewrite (clearAutoAdvanceTimer_idle s Hslot).
  - unfold Earlier.handleAnswerClick, handleAnswerClick.
    destruct (decide (status s ≠ Idle)); [done|].
    destruct (correct option).
    + unfold scheduleAutoAdvance.
      set (s1 := set_statusMessage "Correct!"
                   (set_status Correct (clearAutoAdvanceTimer s))).
      destruct (clearAutoAdvanceTimer_message s1) as (Hst & Hmsg & _).
      page_simpl. by rewrite Hst, Hmsg.
    + page_simpl. by case_bool_decide.
Qed.

Lemma earlier_agrees_witness :
  Earlier.startSession Sample.counting Sample.page3
    = startSession Sample.counting Sample.page3.
Proof.
  destruct (earlier_agrees Sample.counting Sample.wrong Sample.page3)
    as (Hsame & _).
  destruct (Hsame eq_refl) as (Hstart & _).
  exact Hstart.
Defined.

(** ** Tearing the page down *)

(** X20. In every reachable state [onDestroy] leaves no timeout pending
    and the slot empty, so that no [nextQuestion] can run afterwards, and
    it changes nothing of the session. *)
Theorem onDestroy_cancels s :
  reachable s →
  timers (onDestroy s) = [] ∧
  autoAdvanceTimeout (onDestroy s) = None ∧
  (∀ id g, fireTimer id g (onDestroy s) = None) ∧
  same_session s (onDestroy s) ∧
  status (onDestroy s) = status s.
Proof.
  intros Hreach.
  destruct (reachable_invariant s Hreach) as (_ & Htimer & _).
  change (onDestroy s) with (clearAutoAdvanceTimer s).
  destruct (clearAutoAdvanceTimer_timers s Htimer) as [Htbl _].
  destruct (clearAutoAdvanceTimer_same s) as (Hsame & Hst & _).
  split; [done|]. split; [apply clearAutoAdvanceTimer_slot|].
  split; [|done].
  intros id g. unfold fireTimer, due. rewrite Htbl.
  rewrite bool_decide_eq_false_2; [done|]. by intros ?%Exists_nil.
Qed.

Lemma onDestroy_cancels_witness :
  timers (onDestroy (handleAnswerClick Sample.right Sample.session3)) = [].
Proof.
  destruct (onDestroy_cancels (handleAnswerClick Sample.right Sample.session3))
    as (Htbl & _).
  - exact (reachable_handle Sample.session3 (AnswerClick Sample.right)
             (Normal (handleAnswerClick Sample.right Sample.session3))
             session3_reachable eq_refl).
  - exact Htbl.
Defined.

(** ** A failed load *)

Lemma nextQuestion_error g s :
  error (state_of (nextQuestion g s)) = error s.
Proof.
  destruct (clearAutoAdvanceTimer_same s) as ((_ & He & _) & _).
  destruct (nextQuestion_cases g s) as [[_ ->]|[(_ & _ & ->)|(_ & _ & ->)]];
    [done| |by page_simpl].
  destruct (prepareCurrentQuestion_frame g
              (set_currentIndex (currentIndex s + 1) (clearAutoAdvanceTimer s)))
    as (_ & _ & _ & _ & -> & _).
  by page_simpl.
Qed.

(** On an empty store no handler writes [error]. *)
Lemma handle_error_keeps e s c :
  handle e s = Some c → allQuestions s = [] →
  error (state_of c) = error s.
Proof.
  intros Hc Hstore.
  destruct e as [d|n|g|o|g|id g|dt]; cbn [handle] in Hc; simplify_eq;
    cbn [state_of].
  - unfold toggleDomain. by case_decide.
  - done.
  - unfold startSession. by rewrite decide_True by (by rewrite Hstore).
  - apply handleAnswerClick_error.
  - apply nextQuestion_error.
  - unfold fireTimer in Hc. case_match; simplify_eq.
    by rewrite nextQuestion_error.
  - done.
Qed.

Lemma run_load_failure es s0 s1 msg :
  loading s0 = false → allQuestions s0 = [] → error s0 = Some msg →
  run es s0 = Some s1 →
  loading s1 = false ∧ allQuestions s1 = [] ∧ error s1 = Some msg.
Proof.
  revert s0. induction es as [|e es IH]; intros s0 Hl Ha He Hrun; cbn in Hrun.
  - by simplify_eq.
  - destruct (handle e s0) as [c|] eqn:Hc; [|done].
    destruct (handle_config e s0 c Hc) as (Hl' & Ha' & _).
    pose proof (handle_error_keeps e s0 c Hc Ha) as He'.
    apply (IH (state_of c)); congruence.
Qed.

(** X21. When the load fails, [onMount] stores the message of the error
    (or the default one when it has none) and ends the loading state.  If
    that message is not empty and the store is empty, as it is on a fresh
    page, then whatever events follow, the page shows that message in
    place of the quiz and offers no control. *)
Theorem load_failure_blocks (sort : list string → list string) message es s s' :
  message ≠ Some "" → allQuestions s = [] →
  run es (onMount sort (LoadFailed message) s) = Some s' →
  error s' = Some (default loadFailedMessage message) ∧
  render s' = ErrorView (default loadFailedMessage message) ∧
  ∀ e, offers s' e = false.
Proof.
  intros Hmsg Hstore Hrun.
  assert (default loadFailedMessage message ≠ "") as Hne.
  { destruct message as [m|]; cbn; [congruence|done]. }
  destruct (run_load_failure es (onMount sort (LoadFailed message) s) s'
              (default loadFailedMessage message)) as (Hl & _ & He);
    [done|by unfold onMount; mount_simpl|done|done|].
  unfold offers, render. rewrite Hl, He.
  rewrite decide_False by done. split; [done|]. split; [done|].
  by intros [].
Qed.

Lemma load_failure_blocks_witness :
  render (onMount id (LoadFailed (Some "Failed to load Quiz.json: 404")) declared)
    = ErrorView "Failed to load Quiz.json: 404".
Proof.
  destruct (load_failure_blocks id (Some "Failed to load Quiz.json: 404") []
              declared
              (onMount id (LoadFailed (Some "Failed to load Quiz.json: 404"))
                 declared)) as (_ & Hview & _).
  - discriminate.
  - reflexivity.
  - reflexivity.
  - exact Hview.
Defined.

(** * Properties over sequences of events *)

(** ** A start that empties the queue *)

(** C5. The invariant "while a session is started, the position is below
    the length of the queue" is broken by [startSession] itself: when it
    finds candidates it marks the session started at position 0 whatever
    the queue has become, and the queue it stores is empty exactly when
    [minQuestions] is 0 or at most minus the number of candidates; the
    call then throws and leaves a started session with no question. *)
Theorem startSession_empty_queue g s :
  allQuestions s ≠ [] → matchingCandidates s ≠ [] →
  sessionStarted (state_of (startSession g s)) = true ∧
  currentIndex (state_of (startSession g s)) = 0 ∧
  (sessionQuestions (state_of (startSession g s)) = [] ↔
   (minQuestions s = 0 ∨
    minQuestions s ≤ - Z.of_nat (length (matchingCandidates s)))%Z) ∧
  (sessionQuestions (state_of (startSession g s)) = [] →
   returns (startSession g s) = false ∧
   ¬ position_in_range (state_of (startSession g s))).
Proof.
  intros Hstore Hcands.
  destruct (startSession_prepared g s Hstore Hcands)
    as (s3 & Heq & Hq & Hi & Hst & Ha & _).
  destruct (prepareCurrentQuestion_frame
              (shuffleArray g (matchingCandidates s)).2 s3)
    as (Hq' & Hi' & Hst' & _).
  pose proof (prepareCurrentQuestion_returns
                (shuffleArray g (matchingCandidates s)).2 s3) as Hret.
  rewrite <- Heq in Hq', Hi', Hst', Hret.
  rewrite Hq', Hi', Hst', Hi, Hst.
  split; [done|]. split; [done|].
  assert (0 < length (matchingCandidates s)) as Hn.
  { destruct (matchingCandidates s); [done|cbn; lia]. }
  split.
  - rewrite Hq.
    destruct (slice0_take (shuffleArray g (matchingCandidates s)).1 (minQuestions s))
      as (k & Hslice & Hk & Hk').
    rewrite shuffleArray_length in Hk, Hk'.
    destruct (Z.ltb_spec (minQuestions s)
                (Z.of_nat (length (matchingCandidates s)))) as [Hlt|Hge].
    + rewrite Hslice. split.
      * intros Hnil. apply (f_equal length) in Hnil.
        rewrite length_take, shuffleArray_length in Hnil. cbn in Hnil. lia.
      * intros Hzero. apply nil_length_inv.
        rewrite length_take, shuffleArray_length. lia.
    + split.
      * intros Hnil. apply (f_equal length) in Hnil.
        rewrite shuffleArray_length in Hnil. cbn in Hnil. lia.
      * lia.
  - intros Hnil. split.
    + destruct (returns (startSession g s)) eqn:Hr; [|done].
      destruct (proj1 Hret eq_refl) as [q Hcur].
      unfold queue_at in Hcur. by rewrite Hnil in Hcur.
    + intros Hpos. unfold position_in_range in Hpos.
      rewrite Hq', Hi', Hst', Hi, Hst, Hnil in Hpos.
      specialize (Hpos eq_refl). cbn in Hpos. lia.
Qed.

Lemma startSession_empty_queue_witness :
  returns (startSession Sample.counting (set_minQuestions 0 Sample.page3)) = false ∧
  ¬ position_in_range
      (state_of (startSession Sample.counting (set_minQuestions 0 Sample.page3))).
Proof.
  assert (allQuestions (set_minQuestions 0 Sample.page3) ≠ []) as Hstore
    by discriminate.
  assert (matchingCandidates (set_minQuestions 0 Sample.page3) ≠ []) as Hcands
    by (vm_compute; discriminate).
  destruct (startSession_empty_queue Sample.counting
              (set_minQuestions 0 Sample.page3) Hstore Hcands)
    as (_ & _ & Hiff & Hbroken).
  apply Hbroken. apply Hiff. left. reflexivity.
Defined.

(** ** Guards, and calls that are no no-ops *)

(** C8 (amended). [handleAnswerClick] does nothing unless the status is
    idle, and [nextQuestion] does nothing unless a session is started.  A
    [startSession] that returns leaves either no session or one in progress
    on a well-formed queue; from such a session neither [handleAnswerClick]
    nor [nextQuestion] (called by the button or by the timer) throws.  But
    [nextQuestion] in a session is no no-op, however often it is called and
    whether or not the question was answered: each call moves one position
    on, and the call at the last position ends the session. *)
Theorem answer_and_advance_guards :
  (∀ option s, status s ≠ Idle → handleAnswerClick option s = s) ∧
  (∀ g s, sessionStarted s = false → nextQuestion g s = Normal s) ∧
  (∀ g s s', startSession g s = Normal s' → settled s → settled s') ∧
  (∀ option s, active s → active (handleAnswerClick option s)) ∧
  (∀ g s, active s → ∃ s', nextQuestion g s = Normal s' ∧ settled s') ∧
  (∀ id g s c, active s → fireTimer id g s = Some c →
               ∃ s', c = Normal s' ∧ settled s') ∧
  (∀ g s, active s → currentIndex s + 1 < length (sessionQuestions s) →
          ∃ s1, nextQuestion g s = Normal s1 ∧ active s1 ∧
                currentIndex s1 = currentIndex s + 1) ∧
  (∀ g s, active s → length (sessionQuestions s) ≤ currentIndex s + 1 →
          ∃ s1, nextQuestion g s = Normal s1 ∧ sessionStarted s1 = false).
Proof.
  destruct answer_and_advance_total as (H1 & H2 & H3 & H4 & H5 & H6).
  do 6 (split; [assumption|]). split.
  - intros g s Hact Hlt.
    destruct (nextQuestion_moves g s Hact Hlt) as (s1 & Heq & Hact1 & Hi & _).
    by exists s1.
  - intros g s (Hst & Hin & _) Hlast.
    destruct (nextQuestion_cases g s) as [[? _]|[(_ & ? & _)|(_ & _ & ->)]];
      [congruence|lia|].
    eexists. split; [done|]. by page_simpl.
Qed.

Lemma answer_and_advance_guards_witness :
  active (handleAnswerClick Sample.wrong Sample.session3) ∧
  ∃ s1, nextQuestion Sample.zeros Sample.session3 = Normal s1 ∧ active s1 ∧
        currentIndex s1 = currentIndex Sample.session3 + 1.
Proof.
  destruct answer_and_advance_guards
    as (_ & _ & _ & Hanswer & _ & _ & Hmove & _).
  split; [exact (Hanswer Sample.wrong Sample.session3 session3_active)|].
  apply (Hmove Sample.zeros Sample.session3 session3_active).
  vm_compute. lia.
Defined.

(** C8, as stated, fails for a repeated [nextQuestion]: called twice in a
    row on the unanswered first question of the sample session, it returns
    both times and moves the position from 0 to 1 and from 1 to 2. *)
Lemma answer_and_advance_counterexample :
  status Sample.session3 = Idle ∧
  currentIndex Sample.session3 = 0 ∧
  currentIndex (state_of (nextQuestion Sample.zeros Sample.session3)) = 1 ∧
  currentIndex
    (state_of (nextQuestion Sample.zeros
                 (state_of (nextQuestion Sample.zeros Sample.session3)))) = 2 ∧
  returns (nextQuestion Sample.zeros
             (state_of (nextQuestion Sample.zeros Sample.session3))) = true.
Proof. repeat split; vm_compute; reflexivity. Qed.

(** ** The timer over a sequence of events *)

Lemma run_reachable es s s' :
  reachable s → run es s = Some s' → reachable s'.
Proof.
  revert s. induction es as [|e es IH]; intros s Hs Hrun; cbn in Hrun.
  - by simplify_eq.
  - destruct (handle e s) as [c|] eqn:Hc; [|done].
    eapply IH; [|exact Hrun]. by eapply reachable_handle.
Qed.

Lemma nextQuestion_keeps_no_timer g s :
  timers s = [] → timers (state_of (nextQuestion g s)) = [].
Proof.
  intros Hnone.
  destruct (sessionStarted s) eqn:Hst.
  - apply nextQuestion_timers; [by left|done].
  - unfold nextQuestion. by rewrite Hst.
Qed.

(** What one event does to the number of pending timeouts. *)
Lemma handle_timer_budget e s c :
  single_timer s → handle e s = Some c →
  (if is_fire e then 1 else 0) + length (timers (state_of c))
    ≤ (if is_right e then 1 else 0) + length (timers s).
Proof.
  intros Htimer Hc.
  destruct e as [d|n|g|o|g|id g|dt]; cbn [handle is_fire is_right] in *;
    simplify_eq; cbn [state_of].
  - unfold toggleDomain. case_decide; page_simpl; lia.
  - page_simpl. lia.
  - destruct (clearAutoAdvanceTimer_timers s Htimer) as [Htbl _].
    destruct (startSession_cases g s)
      as [[_ ->]|[(_ & _ & s2 & -> & _ & _ & _ & _ & _ & _ & _ & _ & Ht & _)
                 |(_ & _ & s2 & queue & -> & _ & _ & _ & _ & _ & Ht & _)]].
    + cbn [state_of]. lia.
    + page_simpl. rewrite Ht, Htbl. cbn. lia.
    + destruct (prepareCurrentQuestion_frame
                  (shuffleArray g (matchingCandidates s)).2
                  (set_sessionStarted true
                     (set_currentIndex 0 (set_sessionQuestions queue s2))))
        as (_ & _ & _ & _ & _ & _ & -> & _).
      page_simpl. rewrite Ht, Htbl. cbn. lia.
  - destruct (decide (status s = Idle)) as [Hidle|Hbusy].
    + pose proof (handleAnswerClick_timer o s Htimer Hidle) as Ht.
      destruct (correct o).
      * destruct Ht as (-> & _). cbn. lia.
      * destruct Ht as (-> & _). cbn. lia.
    + unfold handleAnswerClick. rewrite decide_True by done.
      destruct (correct o); lia.
  - destruct (sessionStarted s) eqn:Hst.
    + rewrite (nextQuestion_timers g s Htimer Hst). cbn. lia.
    + unfold nextQuestion. rewrite Hst. cbn. lia.
  - destruct (fireTimer_clears id g s c Htimer Hc) as (-> & t & -> & _).
    rewrite nextQuestion_keeps_no_timer by done. cbn. lia.
  - page_simpl. lia.
Qed.

Lemma run_timer_budget es s s' :
  page_invariant s → run es s = Some s' →
  timerFires es + length (timers s') ≤ rightAnswers es + length (timers s).
Proof.
  revert s. induction es as [|e es IH]; intros s Hinv Hrun; cbn in Hrun.
  - simplify_eq. unfold timerFires, rightAnswers. cbn. lia.
  - destruct (handle e s) as [c|] eqn:Hc; [|done].
    pose proof (handle_timer_budget e s c (proj1 (proj2 Hinv)) Hc) as Hstep.
    pose proof (IH _ (handle_invariant e s c Hc Hinv) Hrun) as Hrest.
    unfold timerFires, rightAnswers in *.
    destruct (is_fire e) eqn:Hf, (is_right e) eqn:Hr;
      rewrite ?(filter_cons_True (λ e, is_fire e = true)) by done;
      rewrite ?(filter_cons_False (λ e, is_fire e = true)) by congruence;
      rewrite ?(filter_cons_True (λ e, is_right e = true)) by done;
      rewrite ?(filter_cons_False (λ e, is_right e = true)) by congruence;
      cbn [length]; lia.
Qed.

(** C4 (amended). In every reachable state at most one timeout is pending
    and it is the one in the slot; arming, also while one is pending, leaves
    exactly the new one.  A correct answer arms one timeout, which can fire
    once the delay has passed and not before; its firing during a session is
    exactly the transition of [nextQuestion], to the next question or to
    the end after the last one.  [nextQuestion], by the button or by the
    timer, leaves no timeout pending, so a cancelled timeout never fires,
    and over any sequence of events the timer fires at most once per
    correct answer click (plus the one that was pending at the start). *)
Theorem auto_advance_timer s :
  reachable s →
  single_timer s ∧ timer_means_correct s ∧
  (timers (scheduleAutoAdvance s) = [(nextTimerId s, now s + autoAdvanceDelay)] ∧
   autoAdvanceTimeout (scheduleAutoAdvance s) = Some (nextTimerId s)) ∧
  (∀ option, status s = Idle → correct option = true →
     timers (handleAnswerClick option s)
       = [(nextTimerId s, now s + autoAdvanceDelay)] ∧
     autoAdvanceTimeout (handleAnswerClick option s) = Some (nextTimerId s) ∧
     status (handleAnswerClick option s) = Correct ∧
     ∀ dt g,
       fireTimer (nextTimerId s) g
         (set_now (now s + dt) (handleAnswerClick option s)) =
       if bool_decide (autoAdvanceDelay ≤ dt)
       then Some (nextQuestion g
                    (set_timers [] (set_now (now s + dt)
                                      (handleAnswerClick option s))))
       else None) ∧
  (∀ id g c, sessionStarted s = true → fireTimer id g s = Some c →
     c = nextQuestion g s ∧ status s = Correct) ∧
  (∀ g, sessionStarted s = true →
     timers (state_of (nextQuestion g s)) = [] ∧
     (∀ id g', fireTimer id g' (state_of (nextQuestion g s)) = None) ∧
     (currentIndex s + 1 < length (sessionQuestions s) →
      currentIndex (state_of (nextQuestion g s)) = currentIndex s + 1 ∧
      sessionStarted (state_of (nextQuestion g s)) = true) ∧
     (length (sessionQuestions s) ≤ currentIndex s + 1 →
      sessionStarted (state_of (nextQuestion g s)) = false)) ∧
  (∀ es s', run es s = Some s' →
     reachable s' ∧
     timerFires es + length (timers s') ≤ rightAnswers es + length (timers s)).
Proof.
  intros Hreach.
  destruct (auto_advance_once s Hreach) as (Hone & Hcorrect & Harm & Hfire & Hnext).
  pose proof (reachable_invariant s Hreach) as Hinv.
  do 2 (split; [assumption|]). split; [|do 3 (split; [assumption|])].
  - destruct (clearAutoAdvanceTimer_timers s Hone) as [Htbl Hid].
    destruct (clearAutoAdvanceTimer_same s)
      as ((_ & _ & _ & _ & _ & _ & _ & _ & _ & _ & Hn) & _).
    unfold scheduleAutoAdvance. page_simpl. by rewrite Htbl, Hid, Hn.
  - intros es s' Hrun. split; [by eapply run_reachable|].
    by apply run_timer_budget.
Qed.

Lemma auto_advance_timer_witness :
  timers (handleAnswerClick Sample.right Sample.session3) = [(0, 1000)] ∧
  timers (scheduleAutoAdvance (handleAnswerClick Sample.right Sample.session3))
    = [(1, 1000)].
Proof.
  assert (reachable (handleAnswerClick Sample.right Sample.session3)) as Hreach
    by exact (reachable_handle Sample.session3 (AnswerClick Sample.right)
                (Normal (handleAnswerClick Sample.right Sample.session3))
                session3_reachable eq_refl).
  destruct (auto_advance_timer (handleAnswerClick Sample.right Sample.session3)
              Hreach) as (_ & _ & (Harm & _) & _).
  split; [vm_compute; reflexivity|exact Harm].
Defined.

(** C4, as stated, fails for a manual advance after the timer has fired:
    on the sample session one correct answer, the passing of the delay, the
    firing of the timer and then a click on "Next Question" move the
    position from 0 to 2, and the second question is never answered. *)
Lemma auto_advance_counterexample :
  reachable Sample.session3 ∧
  currentIndex Sample.session3 = 0 ∧
  rightAnswers [AnswerClick Sample.right; TimePasses 1000;
                TimerFire 0 Sample.zeros; NextClick Sample.zeros] = 1 ∧
  (currentIndex <$>
     runReturning [AnswerClick Sample.right; TimePasses 1000;
                   TimerFire 0 Sample.zeros; NextClick Sample.zeros]
       Sample.session3) = Some 2.
Proof.
  split; [apply session3_reachable|].
  repeat split; vm_compute; reflexivity.
Qed.
